(** * Pegasus client core: a shallow embedding of
      [src/client_lib/pegasus_client_impl.cpp]

    The development follows the source file top to bottom: the error tables and
    the error translation ([init_error], [get_client_error],
    [get_rocksdb_server_error]), the key helpers the client calls, the
    asynchronous operations with their completion handlers, the blocking
    wrappers built on them, the range scanner and the split scanner.

    C++ [int] and [unsigned int] are integers in [Z] with their wrap-around
    written out ([to_int], [to_uint]); [std::string] and [dsn::blob] are lists
    of bytes; the static [std::unordered_map<int,int>] is a [gmap Z Z]. *)

From Stdlib Require Import ZArith Lia Strings.Byte Strings.String.
From stdpp Require Import gmap list.

Local Open Scope Z_scope.

(** ** Machine integers *)

(** Conversion to [unsigned int] (32 bits). *)
Definition to_uint (z : Z) : Z := z mod 2 ^ 32.

(** Conversion to [int] (32 bits, two's complement). *)
Definition to_int (z : Z) : Z := (z + 2 ^ 31) mod 2 ^ 32 - 2 ^ 31.

Definition INT_MAX : Z := 2 ^ 31 - 1.

(** [UINT16_MAX] of <stdint.h>; every hash-key length check compares
    [hash_key.size() >= UINT16_MAX]. *)
Definition UINT16_MAX : Z := 65535.

(** [std::string] / [dsn::blob]: a sequence of bytes. *)
Abbreviation blob := (list byte).

#[global] Instance byte_eq_decision : EqDecision byte := Byte.byte_eq_dec.

(** [s.size()] / [s.length()] *)
Definition str_size (s : blob) : Z := Z.of_nat (length s).

(** ** Error codes *)

(** The transport (rDSN) error codes the file names.  Their numeric values are
    assigned by the rDSN runtime and are not part of this source file, so they
    are taken as parameters. *)
Class dsn_error_codes := {
  ERR_OK : Z;
  ERR_TIMEOUT : Z;
  ERR_FILE_OPERATION_FAILED : Z;
  ERR_INVALID_STATE : Z;
  ERR_OBJECT_NOT_FOUND : Z;
  ERR_NETWORK_FAILURE : Z;
  ERR_HANDLER_NOT_FOUND : Z;
  ERR_APP_NOT_EXIST : Z;
  ERR_APP_EXIST : Z
}.

(** The client error codes of <pegasus/error.h> the file names; the header is
    not part of this source file, so the values are parameters as well. *)
Class pegasus_error_codes := {
  PERR_OK : Z;
  PERR_UNKNOWN : Z;
  PERR_TIMEOUT : Z;
  PERR_OBJECT_NOT_FOUND : Z;
  PERR_NETWORK_FAILURE : Z;
  PERR_HANDLER_NOT_FOUND : Z;
  PERR_APP_NOT_EXIST : Z;
  PERR_APP_EXIST : Z;
  PERR_SERVER_INTERNAL_ERROR : Z;
  PERR_SERVER_CHANGED : Z;
  PERR_INVALID_HASH_KEY : Z;
  PERR_INVALID_VALUE : Z;
  PERR_INVALID_SPLIT_COUNT : Z
}.

(** The transport codes are registration indices: [ERR_OK] is index 0 (the
    source relies on it when it feeds the literal [0] of
    [get_rocksdb_server_error] to [get_client_error]), the others are distinct
    positive indices. *)
Definition dsn_codes (E : dsn_error_codes) : list Z :=
  [ERR_OK; ERR_TIMEOUT; ERR_FILE_OPERATION_FAILED; ERR_INVALID_STATE;
   ERR_OBJECT_NOT_FOUND; ERR_NETWORK_FAILURE; ERR_HANDLER_NOT_FOUND;
   ERR_APP_NOT_EXIST; ERR_APP_EXIST].

Definition registered (E : dsn_error_codes) : bool :=
  bool_decide (ERR_OK = 0) &&
  forallb (fun c => 0 <? c) (tail (dsn_codes E)) &&
  bool_decide (NoDup (dsn_codes E)).

(** #define ROCSKDB_ERROR_START -1000 *)
Definition ROCSKDB_ERROR_START : Z := -1000.

Section ErrorTranslation.
Context {E : dsn_error_codes} {P : pegasus_error_codes}.

(** The loop of [init_error]:
    [for (int i = 1001; i < 1013; i++) _server_error_to_client[-i] = -i;]
    with [n] iterations left. *)
Fixpoint rocksdb_error_loop (n : nat) (i : Z) (m : gmap Z Z) : gmap Z Z :=
  match n with
  | O => m
  | S n' => rocksdb_error_loop n' (i + 1) (<[ - i := - i ]> m)
  end.

(** [init_error]: the value of [_server_error_to_client] it leaves behind
    (cleared first, then filled in source order). *)
Definition init_error : gmap Z Z :=
  let m : gmap Z Z := ∅ in
  let m := <[ ERR_OK := PERR_OK ]> m in
  let m := <[ ERR_TIMEOUT := PERR_TIMEOUT ]> m in
  let m := <[ ERR_FILE_OPERATION_FAILED := PERR_SERVER_INTERNAL_ERROR ]> m in
  let m := <[ ERR_INVALID_STATE := PERR_SERVER_CHANGED ]> m in
  let m := <[ ERR_OBJECT_NOT_FOUND := PERR_OBJECT_NOT_FOUND ]> m in
  let m := <[ ERR_NETWORK_FAILURE := PERR_NETWORK_FAILURE ]> m in
  let m := <[ ERR_HANDLER_NOT_FOUND := PERR_HANDLER_NOT_FOUND ]> m in
  let m := <[ ERR_APP_NOT_EXIST := PERR_APP_NOT_EXIST ]> m in
  let m := <[ ERR_APP_EXIST := PERR_APP_EXIST ]> m in
  rocksdb_error_loop (Z.to_nat (1013 - 1001)) 1001 m.

(** [get_client_error], reading the static table [_server_error_to_client]. *)
Definition get_client_error (_server_error_to_client : gmap Z Z)
    (server_error : Z) : Z :=
  match _server_error_to_client !! server_error with
  | Some second => second
  | None => PERR_UNKNOWN
  end.

(** [get_rocksdb_server_error]; the subtraction is an [int] subtraction. *)
Definition get_rocksdb_server_error (rocskdb_error : Z) : Z :=
  if rocskdb_error =? 0 then 0
  else to_int (ROCSKDB_ERROR_START - rocskdb_error).

(** The argument every completion handler of a storage request builds:
    [get_client_error(err == ERR_OK ? get_rocksdb_server_error(response.error)
                                    : err.get())]. *)
Definition storage_client_error (table : gmap Z Z) (err response_error : Z) : Z :=
  get_client_error table
    (if err =? ERR_OK then get_rocksdb_server_error response_error else err).

End ErrorTranslation.

(** ** Strings, sets and maps of the standard library *)

(** [std::string::operator<]: lexicographic order on unsigned bytes. *)
Fixpoint blob_ltb (a b : blob) : bool :=
  match a, b with
  | _, [] => false
  | [], _ :: _ => true
  | x :: a', y :: b' =>
      (Byte.to_N x <? Byte.to_N y)%N
      || ((Byte.to_N x =? Byte.to_N y)%N && blob_ltb a' b')
  end.

(** [memcmp(a, b, n)]: the sign of the first difference among the first [n]
    bytes, compared as [unsigned char]. *)
Fixpoint memcmp (a b : blob) (n : nat) : Z :=
  match n with
  | O => 0
  | S n' =>
      match a, b with
      | x :: a', y :: b' =>
          if (Byte.to_N x <? Byte.to_N y)%N then -1
          else if (Byte.to_N y <? Byte.to_N x)%N then 1
          else memcmp a' b' n'
      | _, _ => 0
      end
  end.

(** [std::set<std::string>] is kept as its ascending list of elements;
    [set_insert] is [std::set::insert]. *)
Fixpoint set_insert (k : blob) (s : list blob) : list blob :=
  match s with
  | [] => [k]
  | x :: s' =>
      if blob_ltb k x then k :: s
      else if blob_ltb x k then x :: set_insert k s'
      else s
  end.

(** [std::map<std::string, std::string>] is kept as its list of pairs in
    ascending key order; [map_emplace] is [std::map::emplace], which leaves an
    existing key alone. *)
Fixpoint map_emplace (k v : blob) (m : list (blob * blob)) : list (blob * blob) :=
  match m with
  | [] => [(k, v)]
  | (k', v') :: m' =>
      if blob_ltb k k' then (k, v) :: m
      else if blob_ltb k' k then (k', v') :: map_emplace k v m'
      else m
  end.

(** ** Key helpers

    [pegasus_generate_key], [pegasus_generate_next_blob] and
    [pegasus_key_hash] come from <pegasus_utils.h> and its key schema, which
    are not part of this source file; the client code is written against this
    interface. *)
Class key_schema := {
  pegasus_generate_key : blob -> blob -> blob;
  pegasus_generate_next_blob : blob -> blob;
  pegasus_key_hash : blob -> Z
}.

(** ** Client data *)

Record internal_info := {
  app_id : Z;
  partition_index : Z;
  decree : Z;
  server : blob
}.

Record scan_options := {
  timeout_ms : Z;
  batch_size : Z;
  start_inclusive : bool;
  stop_inclusive : bool;
  snapshot : bool
}.

(** The default-constructed [internal_info()] and [scan_options] of
    <pegasus/client.h>, which is not part of this source file. *)
Class client_defaults := {
  internal_info_default : internal_info;
  scan_options_default : scan_options
}.

(** A scanner as the two constructor calls of the file build it: with a key
    range ([get_scanner]) or without one ([async_get_unordered_scanners]). *)
Inductive pegasus_scanner :=
| pegasus_scanner_impl (hash : list Z) (options : scan_options) (start stop : blob)
| pegasus_scanner_impl_full (hash : list Z) (options : scan_options).

(** The partition-hash work list a scanner was built with. *)
Definition scanner_hash (s : pegasus_scanner) : list Z :=
  match s with
  | pegasus_scanner_impl hash _ _ _ => hash
  | pegasus_scanner_impl_full hash _ => hash
  end.

(** ** Requests and responses (the fields the client reads) *)

Inductive request :=
| RPC_PUT (key value : blob) (expire_ts_seconds : Z)
| RPC_MULTI_PUT (hash_key : blob) (kvs : list (blob * blob)) (expire_ts_seconds : Z)
| RPC_GET (key : blob)
| RPC_MULTI_GET (hash_key : blob) (sort_keys : list blob)
                (max_kv_count max_kv_size : Z) (no_value : bool)
| RPC_SORTKEY_COUNT (hash_key : blob)
| RPC_REMOVE (key : blob)
| RPC_MULTI_REMOVE (hash_key : blob) (sort_keys : list blob)
| RPC_TTL (key : blob)
| RPC_CM_QUERY_PARTITION_CONFIG_BY_INDEX (app_name : blob).

(** One call handed to the transport: the request, its timeout in
    milliseconds and the partition hash it is routed by. *)
Record call := {
  rpc : request;
  timeout : Z;
  partition_hash : Z
}.

Record update_response := {
  ur_error : Z; ur_app_id : Z; ur_partition_index : Z; ur_decree : Z; ur_server : blob
}.

Record read_response := {
  rr_error : Z; rr_value : blob; rr_app_id : Z; rr_partition_index : Z; rr_server : blob
}.

Record multi_get_response := {
  mg_error : Z; mg_kvs : list (blob * blob);
  mg_app_id : Z; mg_partition_index : Z; mg_server : blob
}.

Record multi_remove_response := {
  mr_error : Z; mr_count : Z;
  mr_app_id : Z; mr_partition_index : Z; mr_decree : Z; mr_server : blob
}.

Record count_response := {
  cr_error : Z; cr_count : Z; cr_app_id : Z; cr_partition_index : Z; cr_server : blob
}.

Record ttl_response := {
  tr_error : Z; tr_ttl_seconds : Z; tr_app_id : Z; tr_partition_index : Z; tr_server : blob
}.

Record configuration_query_by_index_response := {
  cq_err : Z; cq_partition_count : Z
}.

(** The outside world: the clock and, for every call, the completion the
    transport reports for it (a transport error code and, when that code is
    [ERR_OK], the decoded response).  A timeout is a completion too. *)
Class transport := {
  epoch_now : Z;
  reply_update : call -> Z * update_response;
  reply_read : call -> Z * read_response;
  reply_multi_get : call -> Z * multi_get_response;
  reply_multi_remove : call -> Z * multi_remove_response;
  reply_count : call -> Z * count_response;
  reply_ttl : call -> Z * ttl_response;
  reply_config : call -> Z * configuration_query_by_index_response
}.

(** The state an asynchronous operation runs in: the calls handed to the
    transport so far, the memory [S] the caller's continuation writes, and
    whether the process was killed inside the operation (a completion handler
    that divides by zero or lets an exception escape). *)
Record world (S : Type) := World { wire : list call; mem : S; aborted : bool }.
Arguments World {S} _ _ _.
Arguments wire {S} _.
Arguments mem {S} _.
Arguments aborted {S} _.

(** Invoking a continuation. *)
Definition invoke {S} (k : S -> S) (w : world S) : world S :=
  World (wire w) (k (mem w)) (aborted w).

(** Handing a call to the transport: the call goes on the wire and the
    completion handler runs with what the transport reports. *)
Definition rpc_call {R S} (reply : call -> Z * R) (c : call)
    (new_callback : Z -> R -> S -> S) (w : world S) : world S :=
  let '(err, resp) := reply c in
  World (wire w ++ [c]) (new_callback err resp (mem w)) (aborted w).

(** The same for a completion handler that can kill the process before it
    reaches the continuation ([None]): the call is on the wire, the caller's
    memory is as it was, and nothing runs any more. *)
Definition rpc_call_abortable {R S} (reply : call -> Z * R) (c : call)
    (new_callback : Z -> R -> S -> option S) (w : world S) : world S :=
  let '(err, resp) := reply c in
  match new_callback err resp (mem w) with
  | Some m => World (wire w ++ [c]) m (aborted w)
  | None => World (wire w ++ [c]) (mem w) true
  end.

(** The stack frame of a blocking wrapper: [int ret], the output locations
    the continuation captures by reference, and the [notify_event]. *)
Record frame (A : Type) := Frame {
  fr_ret : Z;
  fr_out : A;
  fr_info : option internal_info;
  op_completed : bool
}.
Arguments Frame {A} _ _ _ _.
Arguments fr_ret {A} _.
Arguments fr_out {A} _.
Arguments fr_info {A} _.
Arguments op_completed {A} _.

(** What a blocking wrapper hands back: the returned code ([None] when the
    event was never notified and the caller stays blocked, or when the
    process was killed: the call does not return), the outputs, and the calls
    that went to the transport. *)
Record outcome (A : Type) := Outcome {
  returned : option Z;
  output : A;
  info_out : option internal_info;
  sent : list call
}.
Arguments Outcome {A} _ _ _ _.
Arguments returned {A} _.
Arguments output {A} _.
Arguments info_out {A} _.
Arguments sent {A} _.

(** [op_completed.wait(); return ret;] *)
Definition wait_return {A} (w : world (frame A)) : outcome A :=
  Outcome (if aborted w then None
           else if op_completed (mem w) then Some (fr_ret (mem w)) else None)
          (fr_out (mem w)) (fr_info (mem w)) (wire w).

(** The body of every blocking continuation:
    [ret = err; out = ...; if (info != nullptr) *info = _info;
     op_completed.notify();] *)
Definition complete {A} (err : Z) (out : A) (_info : internal_info)
    (fr : frame A) : frame A :=
  Frame err out
        (match fr_info fr with Some _ => Some _info | None => None end)
        true.

(** The frame on entry: [int ret = -1], the event not yet notified. *)
Definition enter {A} (out : A) (info : option internal_info) : world (frame A) :=
  World [] (Frame (-1) out info false) false.

(** The members of [pegasus_client_impl] the operations read: the static
    error table and the table name. *)
Class client_members := {
  _server_error_to_client : gmap Z Z;
  _app_name : blob
}.

(** ** The operations of [pegasus_client_impl] *)

Section Client.
Context {E : dsn_error_codes} {P : pegasus_error_codes} {K : key_schema}
        {D : client_defaults} {T : transport} {M : client_members}.

(** [ttl_seconds == 0 ? 0 : ttl_seconds + utils::epoch_now()] *)
Definition expire_ts (ttl_seconds : Z) : Z :=
  if ttl_seconds =? 0 then 0 else to_int (ttl_seconds + epoch_now).

(** *** set *)

Definition async_set {S} (hash_key sort_key value : blob)
    (callback : option (Z -> internal_info -> S -> S))
    (timeout_milliseconds ttl_seconds : Z) (w : world S) : world S :=
  if UINT16_MAX <=? str_size hash_key then
    match callback with
    | Some cb => invoke (cb PERR_INVALID_HASH_KEY internal_info_default) w
    | None => w
    end
  else
    let key := pegasus_generate_key hash_key sort_key in
    let req := RPC_PUT key value (expire_ts ttl_seconds) in
    let partition_hash := pegasus_key_hash key in
    let new_callback := fun (err : Z) (response : update_response) (m : S) =>
      match callback with
      | None => m
      | Some user_callback =>
          let info :=
            if err =? ERR_OK then
              {| app_id := ur_app_id response;
                 partition_index := ur_partition_index response;
                 decree := ur_decree response;
                 server := ur_server response |}
            else internal_info_default in
          let ret :=
            storage_client_error _server_error_to_client err (ur_error response) in
          user_callback ret info m
      end in
    rpc_call reply_update
      {| rpc := req; timeout := timeout_milliseconds;
         partition_hash := partition_hash |}
      new_callback w.

Definition set (hash_key sort_key value : blob)
    (timeout_milliseconds ttl_seconds : Z) (info : option internal_info)
    : outcome unit :=
  let callback := fun (err : Z) (_info : internal_info) => complete err tt _info in
  wait_return
    (async_set hash_key sort_key value (Some callback)
               timeout_milliseconds ttl_seconds (enter tt info)).

(** *** multi_set *)

Definition async_multi_set {S} (hash_key : blob) (kvs : list (blob * blob))
    (callback : option (Z -> internal_info -> S -> S))
    (timeout_milliseconds ttl_seconds : Z) (w : world S) : world S :=
  if str_size hash_key =? 0 then
    match callback with
    | Some cb => invoke (cb PERR_INVALID_HASH_KEY internal_info_default) w
    | None => w
    end
  else if UINT16_MAX <=? str_size hash_key then
    match callback with
    | Some cb => invoke (cb PERR_INVALID_HASH_KEY internal_info_default) w
    | None => w
    end
  else if bool_decide (kvs = []) then
    match callback with
    | Some cb => invoke (cb PERR_INVALID_VALUE internal_info_default) w
    | None => w
    end
  else
    let req := RPC_MULTI_PUT hash_key kvs (expire_ts ttl_seconds) in
    let tmp_key := pegasus_generate_key hash_key [] in
    let partition_hash := pegasus_key_hash tmp_key in
    let new_callback := fun (err : Z) (response : update_response) (m : S) =>
      match callback with
      | None => m
      | Some user_callback =>
          let info :=
            if err =? ERR_OK then
              {| app_id := ur_app_id response;
                 partition_index := ur_partition_index response;
                 decree := ur_decree response;
                 server := ur_server response |}
            else internal_info_default in
          let ret :=
            storage_client_error _server_error_to_client err (ur_error response) in
          user_callback ret info m
      end in
    rpc_call reply_update
      {| rpc := req; timeout := timeout_milliseconds;
         partition_hash := partition_hash |}
      new_callback w.

Definition multi_set (hash_key : blob) (kvs : list (blob * blob))
    (timeout_milliseconds ttl_seconds : Z) (info : option internal_info)
    : outcome unit :=
  let callback := fun (err : Z) (_info : internal_info) => complete err tt _info in
  wait_return
    (async_multi_set hash_key kvs (Some callback)
                     timeout_milliseconds ttl_seconds (enter tt info)).

(** *** get *)

Definition async_get {S} (hash_key sort_key : blob)
    (callback : option (Z -> blob -> internal_info -> S -> S))
    (timeout_milliseconds : Z) (w : world S) : world S :=
  if UINT16_MAX <=? str_size hash_key then
    match callback with
    | Some cb => invoke (cb PERR_INVALID_HASH_KEY [] internal_info_default) w
    | None => w
    end
  else
    let req := pegasus_generate_key hash_key sort_key in
    let partition_hash := pegasus_key_hash req in
    let new_callback := fun (err : Z) (response : read_response) (m : S) =>
      match callback with
      | None => m
      | Some user_callback =>
          let value :=
            if err =? ERR_OK then
              if rr_error response =? 0 then rr_value response else []
            else [] in
          let info :=
            if err =? ERR_OK then
              {| app_id := rr_app_id response;
                 partition_index := rr_partition_index response;
                 decree := decree internal_info_default;
                 server := rr_server response |}
            else internal_info_default in
          let ret :=
            storage_client_error _server_error_to_client err (rr_error response) in
          user_callback ret value info m
      end in
    rpc_call reply_read
      {| rpc := RPC_GET req; timeout := timeout_milliseconds;
         partition_hash := partition_hash |}
      new_callback w.

Definition get (hash_key sort_key : blob) (value : blob)
    (timeout_milliseconds : Z) (info : option internal_info) : outcome blob :=
  let callback := fun (err : Z) (str : blob) (_info : internal_info) =>
    complete err str _info in
  wait_return
    (async_get hash_key sort_key (Some callback) timeout_milliseconds
               (enter value info)).

(** *** multi_get *)

Definition async_multi_get {S} (hash_key : blob) (sort_keys : list blob)
    (callback : option (Z -> list (blob * blob) -> internal_info -> S -> S))
    (max_fetch_count max_fetch_size timeout_milliseconds : Z)
    (w : world S) : world S :=
  if str_size hash_key =? 0 then
    match callback with
    | Some cb => invoke (cb PERR_INVALID_HASH_KEY [] internal_info_default) w
    | None => w
    end
  else if UINT16_MAX <=? str_size hash_key then
    match callback with
    | Some cb => invoke (cb PERR_INVALID_HASH_KEY [] internal_info_default) w
    | None => w
    end
  else
    let req :=
      RPC_MULTI_GET hash_key sort_keys max_fetch_count max_fetch_size false in
    let tmp_key := pegasus_generate_key hash_key [] in
    let partition_hash := pegasus_key_hash tmp_key in
    let new_callback := fun (err : Z) (response : multi_get_response) (m : S) =>
      match callback with
      | None => m
      | Some user_callback =>
          let values :=
            if err =? ERR_OK then
              fold_left (fun vs kv => map_emplace (fst kv) (snd kv) vs)
                        (mg_kvs response) []
            else [] in
          let info :=
            if err =? ERR_OK then
              {| app_id := mg_app_id response;
                 partition_index := mg_partition_index response;
                 decree := decree internal_info_default;
                 server := mg_server response |}
            else internal_info_default in
          let ret :=
            storage_client_error _server_error_to_client err (mg_error response) in
          user_callback ret values info m
      end in
    rpc_call reply_multi_get
      {| rpc := req; timeout := timeout_milliseconds;
         partition_hash := partition_hash |}
      new_callback w.

Definition multi_get (hash_key : blob) (sort_keys : list blob)
    (values : list (blob * blob))
    (max_fetch_count max_fetch_size timeout_milliseconds : Z)
    (info : option internal_info) : outcome (list (blob * blob)) :=
  let callback :=
    fun (err : Z) (_values : list (blob * blob)) (_info : internal_info) =>
      complete err _values _info in
  wait_return
    (async_multi_get hash_key sort_keys (Some callback)
                     max_fetch_count max_fetch_size timeout_milliseconds
                     (enter values info)).

(** *** multi_get_sortkeys *)

Definition async_multi_get_sortkeys {S} (hash_key : blob)
    (callback : option (Z -> list blob -> internal_info -> S -> S))
    (max_fetch_count max_fetch_size timeout_milliseconds : Z)
    (w : world S) : world S :=
  if str_size hash_key =? 0 then
    match callback with
    | Some cb => invoke (cb PERR_INVALID_HASH_KEY [] internal_info_default) w
    | None => w
    end
  else if UINT16_MAX <=? str_size hash_key then
    match callback with
    | Some cb => invoke (cb PERR_INVALID_HASH_KEY [] internal_info_default) w
    | None => w
    end
  else
    let req := RPC_MULTI_GET hash_key [] max_fetch_count max_fetch_size true in
    let tmp_key := pegasus_generate_key hash_key [] in
    let partition_hash := pegasus_key_hash tmp_key in
    let new_callback := fun (err : Z) (response : multi_get_response) (m : S) =>
      match callback with
      | None => m
      | Some user_callback =>
          let sort_keys :=
            if err =? ERR_OK then
              fold_left (fun ks kv => set_insert (fst kv) ks) (mg_kvs response) []
            else [] in
          let info :=
            if err =? ERR_OK then
              {| app_id := mg_app_id response;
                 partition_index := mg_partition_index response;
                 decree := decree internal_info_default;
                 server := mg_server response |}
            else internal_info_default in
          let ret :=
            storage_client_error _server_error_to_client err (mg_error response) in
          user_callback ret sort_keys info m
      end in
    rpc_call reply_multi_get
      {| rpc := req; timeout := timeout_milliseconds;
         partition_hash := partition_hash |}
      new_callback w.

Definition multi_get_sortkeys (hash_key : blob) (sort_keys : list blob)
    (max_fetch_count max_fetch_size timeout_milliseconds : Z)
    (info : option internal_info) : outcome (list blob) :=
  let callback :=
    fun (err : Z) (_sort_keys : list blob) (_info : internal_info) =>
      complete err _sort_keys _info in
  wait_return
    (async_multi_get_sortkeys hash_key (Some callback)
                              max_fetch_count max_fetch_size timeout_milliseconds
                              (enter sort_keys info)).

(** *** ttl, exist, sortkey_count: blocking only, on the transport's
    synchronous calls *)

(** [ttl]; [ttl_seconds] is the caller's variable on entry ([None] when it
    holds no determinate value) and the result carries it on exit. *)
Definition ttl (hash_key sort_key : blob) (ttl_seconds : option Z)
    (timeout_milliseconds : Z) (info : option internal_info)
    : outcome (option Z) :=
  if UINT16_MAX <=? str_size hash_key then
    Outcome (Some PERR_INVALID_HASH_KEY) ttl_seconds info []
  else
    let req := pegasus_generate_key hash_key sort_key in
    let partition_hash := pegasus_key_hash req in
    let c := {| rpc := RPC_TTL req; timeout := timeout_milliseconds;
                partition_hash := partition_hash |} in
    let pr := reply_ttl c in
    let ttl_seconds' :=
      if (fst pr =? ERR_OK) && (tr_error (snd pr) =? 0)
      then Some (tr_ttl_seconds (snd pr)) else ttl_seconds in
    let info' :=
      match info with
      | None => None
      | Some i =>
          if fst pr =? ERR_OK then
            Some {| app_id := tr_app_id (snd pr);
                    partition_index := tr_partition_index (snd pr);
                    decree := -1;
                    server := tr_server (snd pr) |}
          else
            Some {| app_id := -1; partition_index := -1; decree := -1;
                    server := server i |}
      end in
    Outcome
      (Some (storage_client_error _server_error_to_client
                                  (fst pr) (tr_error (snd pr))))
      ttl_seconds' info' [c].

(** [exist]: [int ttl_seconds;] is a local without an initial value, and
    what [ttl] leaves in it is dropped on return. *)
Definition exist (hash_key sort_key : blob) (timeout_milliseconds : Z)
    (info : option internal_info) : outcome unit :=
  let r := ttl hash_key sort_key None timeout_milliseconds info in
  Outcome (returned r) tt (info_out r) (sent r).

Definition sortkey_count (hash_key : blob) (count : Z)
    (timeout_milliseconds : Z) (info : option internal_info) : outcome Z :=
  if str_size hash_key =? 0 then
    Outcome (Some PERR_INVALID_HASH_KEY) count info []
  else if UINT16_MAX <=? str_size hash_key then
    Outcome (Some PERR_INVALID_HASH_KEY) count info []
  else
    let tmp_key := pegasus_generate_key hash_key [] in
    let partition_hash := pegasus_key_hash tmp_key in
    let c := {| rpc := RPC_SORTKEY_COUNT hash_key;
                timeout := timeout_milliseconds;
                partition_hash := partition_hash |} in
    let pr := reply_count c in
    let count' :=
      if (fst pr =? ERR_OK) && (cr_error (snd pr) =? 0)
      then cr_count (snd pr) else count in
    let info' :=
      match info with
      | None => None
      | Some i =>
          if fst pr =? ERR_OK then
            Some {| app_id := cr_app_id (snd pr);
                    partition_index := cr_partition_index (snd pr);
                    decree := -1;
                    server := cr_server (snd pr) |}
          else
            Some {| app_id := -1; partition_index := -1; decree := -1;
                    server := server i |}
      end in
    Outcome
      (Some (storage_client_error _server_error_to_client
                                  (fst pr) (cr_error (snd pr))))
      count' info' [c].

(** *** del *)

Definition async_del {S} (hash_key sort_key : blob)
    (callback : option (Z -> internal_info -> S -> S))
    (timeout_milliseconds : Z) (w : world S) : world S :=
  if UINT16_MAX <=? str_size hash_key then
    match callback with
    | Some cb => invoke (cb PERR_INVALID_HASH_KEY internal_info_default) w
    | None => w
    end
  else
    let req := pegasus_generate_key hash_key sort_key in
    let partition_hash := pegasus_key_hash req in
    let new_callback := fun (err : Z) (response : update_response) (m : S) =>
      match callback with
      | None => m
      | Some user_callback =>
          let info :=
            if err =? ERR_OK then
              {| app_id := ur_app_id response;
                 partition_index := ur_partition_index response;
                 decree := ur_decree response;
                 server := ur_server response |}
            else internal_info_default in
          let ret :=
            storage_client_error _server_error_to_client err (ur_error response) in
          user_callback ret info m
      end in
    rpc_call reply_update
      {| rpc := RPC_REMOVE req; timeout := timeout_milliseconds;
         partition_hash := partition_hash |}
      new_callback w.

Definition del (hash_key sort_key : blob) (timeout_milliseconds : Z)
    (info : option internal_info) : outcome unit :=
  let callback := fun (err : Z) (_info : internal_info) => complete err tt _info in
  wait_return
    (async_del hash_key sort_key (Some callback) timeout_milliseconds
               (enter tt info)).

(** *** multi_del *)

Definition async_multi_del {S} (hash_key : blob) (sort_keys : list blob)
    (callback : option (Z -> Z -> internal_info -> S -> S))
    (timeout_milliseconds : Z) (w : world S) : world S :=
  if str_size hash_key =? 0 then
    match callback with
    | Some cb => invoke (cb PERR_INVALID_HASH_KEY 0 internal_info_default) w
    | None => w
    end
  else if UINT16_MAX <=? str_size hash_key then
    match callback with
    | Some cb => invoke (cb PERR_INVALID_HASH_KEY 0 internal_info_default) w
    | None => w
    end
  else if bool_decide (sort_keys = []) then
    match callback with
    | Some cb => invoke (cb PERR_INVALID_VALUE 0 internal_info_default) w
    | None => w
    end
  else
    let req := RPC_MULTI_REMOVE hash_key sort_keys in
    let tmp_key := pegasus_generate_key hash_key [] in
    let partition_hash := pegasus_key_hash tmp_key in
    let new_callback := fun (err : Z) (response : multi_remove_response) (m : S) =>
      match callback with
      | None => m
      | Some user_callback =>
          let info :=
            if err =? ERR_OK then
              {| app_id := mr_app_id response;
                 partition_index := mr_partition_index response;
                 decree := mr_decree response;
                 server := mr_server response |}
            else internal_info_default in
          let deleted_count := if err =? ERR_OK then mr_count response else 0 in
          let ret :=
            storage_client_error _server_error_to_client err (mr_error response) in
          user_callback ret deleted_count info m
      end in
    rpc_call reply_multi_remove
      {| rpc := req; timeout := timeout_milliseconds;
         partition_hash := partition_hash |}
      new_callback w.

Definition multi_del (hash_key : blob) (sort_keys : list blob)
    (deleted_count : Z) (timeout_milliseconds : Z)
    (info : option internal_info) : outcome Z :=
  let callback := fun (err : Z) (_deleted_count : Z) (_info : internal_info) =>
    complete err _deleted_count _info in
  wait_return
    (async_multi_del hash_key sort_keys (Some callback) timeout_milliseconds
                     (enter deleted_count info)).

(** *** get_scanner *)

(** The effective options [o] of [get_scanner]: a copy of [options] whose
    [stop_inclusive] is cleared when no stop sort-key is given. *)
Definition scanner_options (stop_sort_key : blob) (options : scan_options)
    : scan_options :=
  if bool_decide (stop_sort_key = []) then
    {| timeout_ms := timeout_ms options; batch_size := batch_size options;
       start_inclusive := start_inclusive options; stop_inclusive := false;
       snapshot := snapshot options |}
  else options.

(** The encoded bounds [start] and [stop] of [get_scanner]. *)
Definition scanner_start (hash_key start_sort_key : blob) : blob :=
  pegasus_generate_key hash_key start_sort_key.

Definition scanner_stop (hash_key stop_sort_key : blob) : blob :=
  if bool_decide (stop_sort_key = []) then pegasus_generate_next_blob hash_key
  else pegasus_generate_key hash_key stop_sort_key.

(** The test that guards [v.push_back(pegasus_key_hash(start))]. *)
Definition scan_range_nonempty (start stop : blob) (o : scan_options) : bool :=
  let cmp := memcmp start stop (Nat.min (length start) (length stop)) in
  (cmp <? 0)
  || ((cmp =? 0) && (str_size start <? str_size stop))
  || ((cmp =? 0) && (str_size start =? str_size stop)
      && start_inclusive o && stop_inclusive o).

(** [get_scanner] returns its code and the value of the [scanner] out
    parameter ([None]: left unassigned). *)
Definition get_scanner (hash_key start_sort_key stop_sort_key : blob)
    (options : scan_options) : Z * option pegasus_scanner :=
  if UINT16_MAX <=? str_size hash_key then (PERR_INVALID_HASH_KEY, None)
  else if bool_decide (hash_key = []) then (PERR_INVALID_HASH_KEY, None)
  else
    let o := scanner_options stop_sort_key options in
    let start := scanner_start hash_key start_sort_key in
    let stop := scanner_stop hash_key stop_sort_key in
    let v := if scan_range_nonempty start stop o
             then [pegasus_key_hash start] else [] in
    (PERR_OK, Some (pegasus_scanner_impl v o start stop)).

Definition async_get_scanner {S} (hash_key start_sortkey stop_sortkey : blob)
    (options : scan_options)
    (callback : option (Z -> option pegasus_scanner -> S -> S))
    (w : world S) : world S :=
  match callback with
  | Some cb =>
      let '(ret, scanner) :=
        get_scanner hash_key start_sortkey stop_sortkey options in
      invoke (cb ret scanner) w
  | None => w
  end.

(** *** get_unordered_scanners *)

(** [for (int j = 0; j < s; j++) hash[j] = --count;] with [s] iterations
    left; returns the vector and the final [count] ([unsigned int]). *)
Fixpoint fill_hash (s : nat) (count : Z) : list Z * Z :=
  match s with
  | O => ([], count)
  | S s' =>
      let count := to_uint (count - 1) in
      let '(hash, count') := fill_hash s' count in
      (count :: hash, count')
  end.

(** [for (int i = 0; i < split; i++) { ... }] with [n] iterations left.
    [std::vector<uint64_t> hash(s)] with a negative [s] asks for more than
    [max_size()] elements and throws; nothing catches it here, so the process
    is killed ([None]). *)
Fixpoint split_loop (n : nat) (i size more count : Z) (opt : scan_options)
    : option (list pegasus_scanner) :=
  match n with
  | O => Some []
  | S n' =>
      let s := to_int (size + (if i <? more then 1 else 0)) in
      if s <? 0 then None
      else
        let '(hash, count) := fill_hash (Z.to_nat s) count in
        match split_loop n' (i + 1) size more count opt with
        | Some scanners => Some (pegasus_scanner_impl_full hash opt :: scanners)
        | None => None
        end
  end.

(** The body run on a successful partition-count response.
    [scanners.resize(split)] with a negative [split] throws like the vector
    above.  With a partition count of 0, [split] is 0 and [count / split] is
    an integer division by zero.  In both cases the process is killed
    ([None]). *)
Definition split_scanners (partition_count max_split_count : Z)
    (options : scan_options) : option (list pegasus_scanner) :=
  let count := to_uint partition_count in
  let split :=
    to_int (if count <? to_uint max_split_count
            then count else to_uint max_split_count) in
  if split <? 0 then None
  else if to_uint split =? 0 then None
  else
    let size := to_int (count / to_uint split) in
    let more := to_int (to_uint (count - to_uint (to_int (size * split)))) in
    let opt :=
      {| timeout_ms := timeout_ms options; batch_size := batch_size options;
         start_inclusive := start_inclusive scan_options_default;
         stop_inclusive := stop_inclusive scan_options_default;
         snapshot := snapshot options |} in
    split_loop (Z.to_nat split) 0 size more count opt.

Definition async_get_unordered_scanners {S} (max_split_count : Z)
    (options : scan_options)
    (callback : option (Z -> list pegasus_scanner -> S -> S))
    (w : world S) : world S :=
  match callback with
  | None => w
  | Some user_callback =>
      if max_split_count <=? 0 then
        invoke (user_callback PERR_INVALID_SPLIT_COUNT []) w
      else
        let new_callback :=
          fun (err : Z) (response : configuration_query_by_index_response)
              (m : S) =>
            let scanners :=
              if err =? ERR_OK then
                if cq_err response =? ERR_OK then
                  split_scanners (cq_partition_count response)
                                 max_split_count options
                else Some []
              else Some [] in
            let ret :=
              get_client_error _server_error_to_client
                (if err =? ERR_OK then cq_err response else err) in
            match scanners with
            | Some scanners => Some (user_callback ret scanners m)
            | None => None
            end in
        rpc_call_abortable reply_config
          {| rpc := RPC_CM_QUERY_PARTITION_CONFIG_BY_INDEX _app_name;
             timeout := timeout_ms options; partition_hash := 0 |}
          new_callback w
  end.

Definition get_unordered_scanners (max_split_count : Z)
    (options : scan_options) (scanners : list pegasus_scanner)
    : outcome (list pegasus_scanner) :=
  let callback := fun (err : Z) (ss : list pegasus_scanner) (fr : frame _) =>
    Frame err ss (fr_info fr) true in
  wait_return
    (async_get_unordered_scanners max_split_count options (Some callback)
                                  (enter scanners None)).

End Client.

(** ** The key codec of the specification *)

Module KeyCodec.

(** The byte with unsigned value [z mod 256]. *)
Definition byte_of_Z (z : Z) : byte :=
  match Byte.of_N (Z.to_N (z mod 256)) with
  | Some b => b
  | None => Byte.x00
  end.

Definition Z_of_byte (b : byte) : Z := Z.of_N (Byte.to_N b).

(** Modelled from the spec: the encoder [pegasus_generate_key] is declared in
    <pegasus_utils.h>, outside this source file.  The encoded form is
    [[2-byte big-endian length of hash-key][hash-key bytes][sort-key bytes]]. *)
Definition encode (hash_key sort_key : blob) : blob :=
  byte_of_Z (str_size hash_key / 256) :: byte_of_Z (str_size hash_key)
    :: hash_key ++ sort_key.

(** Modelled from the spec: decoding the hash-key length prefix of an
    encoded key recovers the hash-key segment (the decoder is outside this
    source file). *)
Definition hash_key_segment (key : blob) : blob :=
  match key with
  | hi :: lo :: rest => take (Z.to_nat (256 * Z_of_byte hi + Z_of_byte lo)) rest
  | _ => []
  end.

(** Dropping trailing [0xFF] bytes and incrementing the last byte left, on
    the reversed sequence. *)
Fixpoint increment_rev (r : blob) : blob :=
  match r with
  | [] => []
  | b :: r' =>
      if Z_of_byte b =? 255 then increment_rev r'
      else byte_of_Z (Z_of_byte b + 1) :: r'
  end.

(** Modelled from the spec: the successor encoder
    [pegasus_generate_next_blob] is outside this source file.  It yields the
    smallest key above every key of the hash-key, by incrementing the
    encoded hash-key segment rather than appending to it. *)
Definition encode_successor (hash_key : blob) : blob :=
  rev (increment_rev (rev (encode hash_key []))).

(** Modelled from the spec: the routing hash [pegasus_key_hash] is outside
    this source file.  It is a 64-bit value derived from the hash-key
    segment of the encoded key only; [segment_hash] is the digest applied to
    that segment, which the specification leaves open. *)
Definition partition_hash (segment_hash : blob -> Z) (key : blob) : Z :=
  segment_hash (hash_key_segment key) mod 2 ^ 64.

(** The key helpers of the client, as the specification describes them. *)
Definition schema (segment_hash : blob -> Z) : key_schema :=
  {| pegasus_generate_key := encode;
     pegasus_generate_next_blob := encode_successor;
     pegasus_key_hash := partition_hash segment_hash |}.

End KeyCodec.

(** ** A concrete configuration, for evaluating the operations *)

Module Sample.

(** Transport codes in registration order. *)
Definition dsn : dsn_error_codes :=
  {| ERR_OK := 0; ERR_TIMEOUT := 5; ERR_FILE_OPERATION_FAILED := 9;
     ERR_INVALID_STATE := 11; ERR_OBJECT_NOT_FOUND := 6;
     ERR_NETWORK_FAILURE := 12; ERR_HANDLER_NOT_FOUND := 3;
     ERR_APP_NOT_EXIST := 21; ERR_APP_EXIST := 22 |}.

(** Client codes: a private space with [PERR_OK = 0] and negative errors. *)
Definition perr : pegasus_error_codes :=
  {| PERR_OK := 0; PERR_UNKNOWN := -1; PERR_TIMEOUT := -2;
     PERR_OBJECT_NOT_FOUND := -3; PERR_NETWORK_FAILURE := -4;
     PERR_HANDLER_NOT_FOUND := -5; PERR_APP_NOT_EXIST := -51;
     PERR_APP_EXIST := -52; PERR_SERVER_INTERNAL_ERROR := -53;
     PERR_SERVER_CHANGED := -54; PERR_INVALID_HASH_KEY := -102;
     PERR_INVALID_VALUE := -103; PERR_INVALID_SPLIT_COUNT := -106 |}.

Definition defaults : client_defaults :=
  {| internal_info_default :=
       {| app_id := -1; partition_index := -1; decree := -1; server := [] |};
     scan_options_default :=
       {| timeout_ms := 5000; batch_size := 1000; start_inclusive := true;
          stop_inclusive := false; snapshot := false |} |}.

(** A digest of the hash-key segment: the sum of its bytes. *)
Definition segment_hash (h : blob) : Z :=
  fold_right (fun b acc => KeyCodec.Z_of_byte b + acc) 0 h.

Definition keys : key_schema := KeyCodec.schema segment_hash.

Definition node : blob := list_byte_of_string "10.0.0.1:34801".

(** A transport on which every call completes with [ERR_OK] and a
    successful storage status, served by partition 3 of table 2; the table
    has [partitions] partitions. *)
Definition healthy (partitions : Z) : transport :=
  {| epoch_now := 1500000000;
     reply_update := fun _ => (0, Build_update_response 0 2 3 77 node);
     reply_read := fun _ =>
       (0, Build_read_response 0 (list_byte_of_string "30") 2 3 node);
     reply_multi_get := fun _ => (0, Build_multi_get_response 0 [] 2 3 node);
     reply_multi_remove := fun _ =>
       (0, Build_multi_remove_response 0 1 2 3 78 node);
     reply_count := fun _ => (0, Build_count_response 0 4 2 3 node);
     reply_ttl := fun _ => (0, Build_ttl_response 0 60 2 3 node);
     reply_config := fun _ =>
       (0, Build_configuration_query_by_index_response 0 partitions) |}.

(** The healthy transport in front of a table of 10 partitions. *)
Definition net : transport := healthy 10.

(** A hash-key of 65536 bytes. *)
Definition long_key : blob := repeat Byte.x61 (Z.to_nat 65536).

Definition str (s : string) : blob := list_byte_of_string s.

(** The client after [init_error], bound to table [temp]. *)
Definition members : client_members :=
  {| _server_error_to_client := @init_error dsn perr;
     _app_name := list_byte_of_string "temp" |}.

End Sample.

(** ** Notions used to state the properties *)

(** The run [count - 1, count - 2, ..., count - s] of partition indices. *)
Fixpoint countdown (s : nat) (count : Z) : list Z :=
  match s with
  | O => []
  | S s' => (count - 1) :: countdown s' (count - 1)
  end.

(** [run] hands exactly [calls] to the transport and runs the continuation
    body [f] once on the caller's memory. *)
Definition completes_with {S} (run : world S -> world S) (calls : list call)
    (f : S -> S) : Prop :=
  forall w, run w = World (wire w ++ calls) (f (mem w)) (aborted w).










(** A blocking call is refused with [code]: it returns [code] and has sent
    nothing. *)
Definition refused {A} (code : Z) (r : outcome A) : Prop :=
  returned r = Some code /\ sent r = [].

(** An asynchronous call is rejected on the spot: nothing goes on the wire,
    and the continuation, when there is one, is run once as [deliver] says
    (with a null continuation the call just returns). *)
Definition rejected_with {S C} (deliver : C -> S -> S)
    (run : option C -> world S -> world S) : Prop :=
  forall callback w,
    wire (run callback w) = wire w
    /\ mem (run callback w)
       = match callback with
         | Some k => deliver k (mem w)
         | None => mem w
         end.


(** Every call on transport [T] completes with the transport error [err]. *)
Definition transport_reports (T : transport) (err : Z) : Prop :=
  forall c,
    fst (reply_update c) = err /\ fst (reply_read c) = err
    /\ fst (reply_multi_get c) = err /\ fst (reply_multi_remove c) = err
    /\ fst (reply_count c) = err /\ fst (reply_ttl c) = err
    /\ fst (reply_config c) = err.

(** Every storage response on transport [T] carries the storage status [k]. *)
Definition storage_reports (T : transport) (k : Z) : Prop :=
  forall c,
    ur_error (snd (reply_update c)) = k /\ rr_error (snd (reply_read c)) = k
    /\ mg_error (snd (reply_multi_get c)) = k
    /\ mr_error (snd (reply_multi_remove c)) = k
    /\ cr_error (snd (reply_count c)) = k /\ tr_error (snd (reply_ttl c)) = k.

(** The envelope [ttl] and [sortkey_count] write after a transport failure:
    the three numbers are reset, [server] keeps what the caller had. *)
Definition reset_info (i : internal_info) : internal_info :=
  {| app_id := -1; partition_index := -1; decree := -1; server := server i |}.

(** A list of strings in strictly ascending byte-wise order, as the
    elements of a [std::set] or the keys of a [std::map] are. *)
Fixpoint ascending (l : list blob) : bool :=
  match l with
  | a :: ((b :: _) as t) => blob_ltb a b && ascending t
  | _ => true
  end.

(** The value bound to [k] in a list of pairs: the first match. *)
Fixpoint assoc_find (k : blob) (m : list (blob * blob)) : option blob :=
  match m with
  | [] => None
  | (k', v) :: m' => if bool_decide (k' = k) then Some v else assoc_find k m'
  end.

(** ** Further transports, for evaluating the operations on failures *)

Module Scenario.

(** A transport that completes every call with transport code [err]; storage
    responses carry the status [k] and the pairs [kvs], the partition-count
    response the error [meta_err]. *)
Definition replying (err k : Z) (kvs : list (blob * blob)) (meta_err : Z)
    : transport :=
  {| epoch_now := 1500000000;
     reply_update := fun _ => (err, Build_update_response k 2 3 77 Sample.node);
     reply_read := fun _ =>
       (err, Build_read_response k (Sample.str "30") 2 3 Sample.node);
     reply_multi_get := fun _ =>
       (err, Build_multi_get_response k kvs 2 3 Sample.node);
     reply_multi_remove := fun _ =>
       (err, Build_multi_remove_response k 1 2 3 78 Sample.node);
     reply_count := fun _ => (err, Build_count_response k 4 2 3 Sample.node);
     reply_ttl := fun _ => (err, Build_ttl_response k 60 2 3 Sample.node);
     reply_config := fun _ =>
       (err, Build_configuration_query_by_index_response meta_err 8) |}.

(** Every call times out ([ERR_TIMEOUT] is 5 in the sample registration). *)
Definition timing_out : transport := replying 5 0 [] 0.

(** The storage engine answers every request with status 1. *)
Definition not_found : transport := replying 0 1 [] 0.

(** The table is unknown to the metadata service ([ERR_APP_NOT_EXIST] is 21). *)
Definition no_such_table : transport := replying 0 0 [] 21.

(** A multi_get response out of order and with a repeated key. *)
Definition listing : transport :=
  replying 0 0
    [ (Sample.str "b", Sample.str "1"); (Sample.str "a", Sample.str "2");
      (Sample.str "b", Sample.str "3") ] 0.

End Scenario.

(** * Properties *)

(** ** Machine integers *)

Lemma to_int_small z : - 2 ^ 31 <= z < 2 ^ 31 -> to_int z = z.
Proof.
  intros Hz. unfold to_int.
  rewrite Z.mod_small; lia.
Qed.

Lemma to_uint_small z : 0 <= z < 2 ^ 32 -> to_uint z = z.
Proof. intros Hz. unfold to_uint. now apply Z.mod_small. Qed.

(** ** The error table *)

Section ErrorTable.
Context {E : dsn_error_codes} {P : pegasus_error_codes}.

(** The loop writes [-i := -i] for the [n] values of [i] it runs through
    and leaves every other key alone. *)
Lemma lookup_rocksdb_error_loop n i (m : gmap Z Z) k :
  rocksdb_error_loop n i m !! k =
    if decide (i <= - k < i + Z.of_nat n) then Some k else m !! k.
Proof.
  revert i m. induction n as [|n IH]; intros i m; simpl rocksdb_error_loop.
  - case_decide; [lia | reflexivity].
  - rewrite IH. rewrite lookup_insert.
    repeat case_decide; try reflexivity; try lia.
    f_equal. lia.
Qed.

Lemma init_error_rocksdb k :
  -1012 <= k <= -1001 -> init_error !! k = Some k.
Proof.
  intros Hk. unfold init_error. rewrite lookup_rocksdb_error_loop.
  case_decide; [reflexivity | lia].
Qed.

Lemma registered_inv :
  registered E = true ->
  ERR_OK = 0 /\ 0 < ERR_TIMEOUT /\ 0 < ERR_FILE_OPERATION_FAILED
  /\ 0 < ERR_INVALID_STATE /\ 0 < ERR_OBJECT_NOT_FOUND
  /\ 0 < ERR_NETWORK_FAILURE /\ 0 < ERR_HANDLER_NOT_FOUND
  /\ 0 < ERR_APP_NOT_EXIST /\ 0 < ERR_APP_EXIST.
Proof.
  unfold registered, dsn_codes. simpl.
  rewrite !andb_true_iff, !Z.ltb_lt, !bool_decide_eq_true.
  tauto.
Qed.

(** After [init_error] the key [0] holds [PERR_OK]. *)
Lemma init_error_zero :
  registered E = true -> init_error !! 0 = Some PERR_OK.
Proof.
  intros HE. apply registered_inv in HE.
  destruct HE as (H0 & H1 & H2 & H3 & H4 & H5 & H6 & H7 & H8).
  unfold init_error. rewrite lookup_rocksdb_error_loop.
  case_decide; [lia|].
  rewrite !lookup_insert_ne by lia.
  rewrite H0. apply lookup_insert_eq.
Qed.

(** Negative keys outside [-1012 .. -1001] have no entry. *)
Lemma init_error_negative k :
  registered E = true -> k < 0 -> ~ (-1012 <= k <= -1001) ->
  init_error !! k = None.
Proof.
  intros HE Hk Hr. apply registered_inv in HE.
  destruct HE as (H0 & H1 & H2 & H3 & H4 & H5 & H6 & H7 & H8).
  unfold init_error. rewrite lookup_rocksdb_error_loop.
  case_decide; [lia|].
  rewrite !lookup_insert_ne by lia.
  apply lookup_empty.
Qed.

Lemma get_rocksdb_server_error_nonzero k :
  k <> 0 -> - 2 ^ 31 - 1000 < k <= 2 ^ 31 - 1000 ->
  get_rocksdb_server_error k = -1000 - k.
Proof.
  intros Hk Hr. unfold get_rocksdb_server_error, ROCSKDB_ERROR_START.
  destruct (Z.eqb_spec k 0); [contradiction|].
  apply to_int_small. lia.
Qed.

Lemma storage_client_error_ok table k :
  storage_client_error table ERR_OK k =
    get_client_error table (get_rocksdb_server_error k).
Proof. unfold storage_client_error. now rewrite Z.eqb_refl. Qed.

(** A known storage status, 1 to 12, is translated to [-1000 - k]. *)
Lemma known_status_code k :
  1 <= k <= 12 -> storage_client_error init_error ERR_OK k = -1000 - k.
Proof.
  intros Hk. rewrite storage_client_error_ok.
  rewrite get_rocksdb_server_error_nonzero by lia.
  unfold get_client_error. rewrite init_error_rocksdb by lia. reflexivity.
Qed.

(** A status with no entry degrades to [PERR_UNKNOWN]. *)
Lemma unknown_status_code k :
  registered E = true ->
  -1000 < k <= 2 ^ 31 - 1000 -> k <> 0 -> ~ (1 <= k <= 12) ->
  storage_client_error init_error ERR_OK k = PERR_UNKNOWN.
Proof.
  intros HE Hr Hk Hn. rewrite storage_client_error_ok.
  rewrite get_rocksdb_server_error_nonzero by lia.
  unfold get_client_error. rewrite init_error_negative by (trivial; lia).
  reflexivity.
Qed.

End ErrorTable.

(** C2 (amended): when the transport succeeds, every storage status that
    [init_error] registers, 1 <= k <= 12, is translated to the client code
    -1000 - k, which lies in the reserved range -1012 .. -1001, and two
    different such statuses are translated to different codes. *)
Theorem known_storage_status_translation
    {E : dsn_error_codes} {P : pegasus_error_codes} (k1 k2 : Z) :
  1 <= k1 <= 12 -> 1 <= k2 <= 12 ->
  storage_client_error init_error ERR_OK k1 = -1000 - k1
  /\ -1012 <= storage_client_error init_error ERR_OK k1 <= -1001
  /\ (k1 <> k2 ->
      storage_client_error init_error ERR_OK k1
      <> storage_client_error init_error ERR_OK k2).
Proof.
  intros H1 H2. rewrite !known_status_code by assumption.
  repeat split; lia.
Qed.

(** C6: the error translation is a total function of the transport status
    and the storage status (one client code for every pair, whatever the
    table holds); after [init_error] a successful transport status with
    storage status 0 gives [PERR_OK]; and a server or storage code without an
    entry in the table gives [PERR_UNKNOWN]. *)
Theorem error_translation_total
    {E : dsn_error_codes} {P : pegasus_error_codes}
    (table : gmap Z Z) (transport_status storage_status : Z) :
  (exists c, storage_client_error table transport_status storage_status = c
             /\ forall c', storage_client_error table transport_status
                             storage_status = c' -> c' = c)
  /\ (registered E = true -> storage_client_error init_error ERR_OK 0 = PERR_OK)
  /\ (forall server_error, table !! server_error = None ->
        get_client_error table server_error = PERR_UNKNOWN)
  /\ (table !! (if transport_status =? ERR_OK
                then get_rocksdb_server_error storage_status
                else transport_status) = None ->
      storage_client_error table transport_status storage_status = PERR_UNKNOWN).
Proof.
  split; [|split; [|split]].
  - eexists. split; [reflexivity|]. intros c' <-. reflexivity.
  - intros HE. rewrite storage_client_error_ok.
    unfold get_rocksdb_server_error, get_client_error.
    change (0 =? 0) with true. cbv iota.
    now rewrite init_error_zero.
  - intros server_error Hnone. unfold get_client_error. now rewrite Hnone.
  - intros Hnone. unfold storage_client_error, get_client_error.
    now rewrite Hnone.
Qed.

(** ** The split scan *)

Lemma length_countdown s count : length (countdown s count) = s.
Proof. revert count. induction s as [|s IH]; intros count; simpl; [|rewrite IH]; reflexivity. Qed.

Lemma elem_of_countdown x s count :
  x ∈ countdown s count <-> count - Z.of_nat s <= x < count.
Proof.
  revert count. induction s as [|s IH]; intros count; simpl countdown.
  - rewrite elem_of_nil. lia.
  - rewrite elem_of_cons, IH. lia.
Qed.

Lemma NoDup_countdown s count : NoDup (countdown s count).
Proof.
  revert count. induction s as [|s IH]; intros count; simpl countdown.
  - constructor.
  - constructor; [|apply IH]. rewrite elem_of_countdown. lia.
Qed.

Lemma countdown_app a b count :
  countdown (a + b) count = countdown a count ++ countdown b (count - Z.of_nat a).
Proof.
  revert count. induction a as [|a IH]; intros count.
  - simpl. f_equal. lia.
  - change (S a + b)%nat with (S (a + b)). simpl countdown.
    rewrite IH. simpl. do 3 f_equal. lia.
Qed.

(** The inner loop writes a run of consecutive indices, counting down. *)
Lemma fill_hash_countdown s count :
  Z.of_nat s <= count < 2 ^ 32 ->
  fill_hash s count = (countdown s count, count - Z.of_nat s).
Proof.
  revert count. induction s as [|s IH]; intros count Hc.
  - simpl. f_equal. lia.
  - simpl fill_hash. rewrite to_uint_small by lia.
    rewrite IH by lia. simpl countdown. f_equal. lia.
Qed.

Section SplitLoop.
Context {D : client_defaults}.
Variables (size more : Z) (opt : scan_options).
Hypothesis Hsize : 0 <= size.

(** What [split_loop] builds from iteration [i] on, when [count] indices are
    left for the [n] remaining scanners. *)
Lemma split_loop_groups n : forall i count,
  0 <= i -> more <= i + Z.of_nat n ->
  count = size * Z.of_nat n + Z.max 0 (more - i) -> count < 2 ^ 31 ->
  exists scanners,
    split_loop n i size more count opt = Some scanners
    /\ let groups := map scanner_hash scanners in
       length groups = n
       /\ concat groups = countdown (Z.to_nat count) count
       /\ forall j g, groups !! j = Some g ->
            Z.of_nat (length g)
            = size + (if i + Z.of_nat j <? more then 1 else 0).
Proof.
  induction n as [|n IH]; intros i count Hi Hmore Hcount Hlt; simpl.
  - exists []. split; [reflexivity|]. simpl.
    assert (count = 0) as -> by lia. repeat split; try reflexivity.
    intros j g Hj. rewrite lookup_nil in Hj. discriminate.
  - set (b := if i <? more then 1 else 0).
    assert (Hb : 0 <= b <= 1 /\ Z.max 0 (more - i) = b + Z.max 0 (more - (i + 1))).
    { unfold b. destruct (Z.ltb_spec i more); lia. }
    assert (Hs : size + b <= count) by nia.
    rewrite to_int_small by lia.
    destruct (Z.ltb_spec (size + b) 0); [lia|].
    rewrite fill_hash_countdown by lia.
    rewrite Z2Nat.id by lia.
    destruct (IH (i + 1) (count - (size + b)))
      as (rest & Hrest & Hlen & Hcat & Hsz); try lia.
    rewrite Hrest. eexists. split; [reflexivity|].
    simpl. repeat split.
    + simpl in Hlen. now rewrite Hlen.
    + simpl in Hcat. rewrite Hcat.
      replace (Z.to_nat count)
        with (Z.to_nat (size + b) + Z.to_nat (count - (size + b)))%nat by lia.
      rewrite countdown_app. do 2 f_equal. lia.
    + intros [|j] g Hj; simpl in Hj.
      * injection Hj as <-. rewrite length_countdown.
        rewrite Z.add_0_r. fold b. lia.
      * rewrite (Hsz j g Hj). do 2 f_equal.
        replace (i + 1 + Z.of_nat j) with (i + Z.of_nat (S j)) by lia.
        reflexivity.
Qed.
End SplitLoop.

(** Lists whose concatenation has no duplicates are pairwise disjoint. *)
Lemma NoDup_concat_disjoint {A} (ls : list (list A)) :
  NoDup (concat ls) ->
  forall i j li lj, ls !! i = Some li -> ls !! j = Some lj -> i <> j ->
  forall x, x ∈ li -> x ∉ lj.
Proof.
  induction ls as [|l ls IH]; intros Hnd i j li lj Hi Hj Hij x Hx Hx'.
  - rewrite lookup_nil in Hi. discriminate.
  - simpl in Hnd. apply NoDup_app in Hnd as (_ & Hdisj & Hnd).
    assert (Hin : forall k lk, ls !! k = Some lk -> forall y, y ∈ lk -> y ∈ concat ls).
    { intros k lk Hk y Hy. apply list_elem_of_In, in_concat.
      exists lk. split; apply list_elem_of_In; [|assumption].
      eapply list_elem_of_lookup_2; eassumption. }
    destruct i as [|i], j as [|j]; simpl in Hi, Hj; try congruence.
    + injection Hi as <-. apply (Hdisj x Hx). eapply Hin; eassumption.
    + injection Hj as <-. apply (Hdisj x Hx'). eapply Hin; eassumption.
    + eapply (IH Hnd i j); try eassumption. congruence.
Qed.

Lemma elem_of_concat {A} (ls : list (list A)) x :
  x ∈ concat ls <-> exists l, l ∈ ls /\ x ∈ l.
Proof.
  rewrite list_elem_of_In, in_concat. split; intros (l & H1 & H2); exists l.
  - now rewrite !list_elem_of_In.
  - now rewrite <- !list_elem_of_In.
Qed.

(** The groups [split_scanners] builds. *)
Lemma split_scanners_groups {D : client_defaults} (P S : Z) options :
  1 <= P <= INT_MAX -> 1 <= S <= INT_MAX ->
  let m := Z.min S P in
  exists scanners,
    split_scanners P S options = Some scanners
    /\ let groups := map scanner_hash scanners in
       length groups = Z.to_nat m
       /\ concat groups = countdown (Z.to_nat P) P
       /\ forall j g, groups !! j = Some g ->
            Z.of_nat (length g)
            = P / m + (if Z.of_nat j <? P mod m then 1 else 0).
Proof.
  intros HP HS m. unfold INT_MAX in HP, HS.
  unfold split_scanners.
  rewrite (to_uint_small P), (to_uint_small S) by lia.
  assert (Hm : 1 <= m <= P /\ m <= S) by (unfold m; lia).
  replace (if P <? S then P else S) with m
    by (unfold m; destruct (Z.ltb_spec P S); lia).
  rewrite (to_int_small m), (to_uint_small m) by lia.
  destruct (Z.ltb_spec m 0); [lia|].
  destruct (Z.eqb_spec m 0); [lia|].
  assert (Hdiv : 1 <= P / m <= P).
  { split; [apply Z.div_le_lower_bound; lia|].
    apply Z.div_le_upper_bound; nia. }
  pose proof (Z.div_mod P m ltac:(lia)) as Hdm.
  pose proof (Z.mod_pos_bound P m ltac:(lia)) as Hmod.
  rewrite (to_int_small (P / m)) by lia.
  rewrite (to_int_small (P / m * m)) by nia.
  rewrite (to_uint_small (P / m * m)) by nia.
  replace (P - P / m * m) with (P mod m) by lia.
  rewrite (to_uint_small (P mod m)), (to_int_small (P mod m)) by lia.
  destruct (split_loop_groups (P / m) (P mod m)
              {| timeout_ms := timeout_ms options;
                 batch_size := batch_size options;
                 start_inclusive := start_inclusive scan_options_default;
                 stop_inclusive := stop_inclusive scan_options_default;
                 snapshot := snapshot options |}
              ltac:(lia) (Z.to_nat m) 0 P)
    as (scanners & Heq & Hlen & Hcat & Hsz); try lia; try nia.
  exists scanners. split; [exact Heq|]. repeat split; assumption.
Qed.

(** A table reported with no partition: the division by zero, whatever the
    split count. *)
Lemma split_scanners_no_partition {D : client_defaults} (S : Z) options :
  split_scanners 0 S options = None.
Proof.
  unfold split_scanners. change (to_uint 0) with 0.
  assert (HS : 0 <= to_uint S) by (unfold to_uint; apply Z.mod_pos_bound; lia).
  destruct (Z.ltb_spec 0 (to_uint S)); [reflexivity|].
  replace (to_uint S) with 0 by lia. reflexivity.
Qed.

(** What the blocking unordered scan hands back when the metadata service
    answers with [ERR_OK] and the split goes through. *)
Lemma get_unordered_scanners_split
    {E : dsn_error_codes} {PE : pegasus_error_codes} {D : client_defaults}
    {T : transport} {M : client_members}
    (partitions max_split_count : Z) (options : scan_options)
    (scanners split : list pegasus_scanner) :
  0 < max_split_count ->
  (forall c, reply_config c =
             (ERR_OK, {| cq_err := ERR_OK; cq_partition_count := partitions |})) ->
  split_scanners partitions max_split_count options = Some split ->
  output (get_unordered_scanners max_split_count options scanners) = split.
Proof.
  intros Hpos Hreply Hsplit.
  unfold get_unordered_scanners, async_get_unordered_scanners,
    rpc_call_abortable.
  destruct (Z.leb_spec max_split_count 0); [lia|].
  rewrite Hreply. simpl. rewrite Z.eqb_refl, Hsplit. reflexivity.
Qed.



(** C3: with [partitions >= 1] partitions reported by the metadata service
    and [max_split_count >= 1], the scanners [get_unordered_scanners] hands
    back number [min max_split_count partitions]; their partition-index
    groups are non-empty and pairwise disjoint, cover exactly the indices
    [0 .. partitions - 1], and the group at position [i] has
    [partitions / m] elements plus one more when [i < partitions mod m]
    (with [m] the number of scanners), so sizes differ by at most one. *)
Theorem split_scan_partition
    {E : dsn_error_codes} {PE : pegasus_error_codes} {D : client_defaults}
    {T : transport} {M : client_members}
    (partitions max_split_count : Z) (options : scan_options)
    (scanners : list pegasus_scanner) :
  1 <= partitions <= INT_MAX -> 1 <= max_split_count <= INT_MAX ->
  (forall c, reply_config c =
             (ERR_OK, {| cq_err := ERR_OK; cq_partition_count := partitions |})) ->
  let m := Z.min max_split_count partitions in
  let groups :=
    map scanner_hash
        (output (get_unordered_scanners max_split_count options scanners)) in
  Z.of_nat (length groups) = m
  /\ (forall g, g ∈ groups -> g <> [])
  /\ (forall i j gi gj, groups !! i = Some gi -> groups !! j = Some gj ->
        i <> j -> forall x, x ∈ gi -> x ∉ gj)
  /\ (forall x, (exists g, g ∈ groups /\ x ∈ g) <-> 0 <= x < partitions)
  /\ (forall i g, groups !! i = Some g ->
        Z.of_nat (length g)
        = partitions / m + (if Z.of_nat i <? partitions mod m then 1 else 0))
  /\ (forall gi gj, gi ∈ groups -> gj ∈ groups ->
        Z.abs (Z.of_nat (length gi) - Z.of_nat (length gj)) <= 1).
Proof.
  intros HP HS Hreply m groups.
  destruct (split_scanners_groups partitions max_split_count options HP HS)
    as (split & Hsplit & Hlen & Hcat & Hsz).
  assert (Hout : output (get_unordered_scanners max_split_count options scanners)
                 = split).
  { apply (get_unordered_scanners_split partitions); try assumption.
    unfold INT_MAX in HS. lia. }
  subst groups. rewrite Hout.
  fold m in Hlen, Hsz.
  set (groups := map scanner_hash split) in *.
  unfold INT_MAX in HP, HS.
  assert (Hm : 1 <= m <= partitions) by (unfold m; lia).
  assert (Hq : 1 <= partitions / m) by (apply Z.div_le_lower_bound; lia).
  assert (Hbound : forall g, g ∈ groups ->
            partitions / m <= Z.of_nat (length g) <= partitions / m + 1).
  { intros g Hg. apply list_elem_of_lookup in Hg as [i Hi].
    rewrite (Hsz i g Hi). destruct (_ <? _); lia. }
  split; [lia|]. split; [|split; [|split; [|split]]].
  - intros g Hg ->. specialize (Hbound [] Hg). simpl in Hbound. lia.
  - apply NoDup_concat_disjoint. rewrite Hcat. apply NoDup_countdown.
  - intros x. rewrite <- elem_of_concat, Hcat, elem_of_countdown. lia.
  - exact Hsz.
  - intros gi gj Hi Hj. pose proof (Hbound gi Hi). pose proof (Hbound gj Hj). lia.
Qed.



(** ** The blocking wrappers *)

Section Bridge.
Context {E : dsn_error_codes} {PE : pegasus_error_codes} {K : key_schema}
        {D : client_defaults} {T : transport} {M : client_members}.














End Bridge.





(** ** Validation before any request *)

Section Validation.
Context {E : dsn_error_codes} {PE : pegasus_error_codes} {K : key_schema}
        {D : client_defaults} {T : transport} {M : client_members}.

Lemma oversized hash_key :
  65536 <= str_size hash_key ->
  (UINT16_MAX <=? str_size hash_key) = true /\ (str_size hash_key =? 0) = false.
Proof. unfold UINT16_MAX. lia. Qed.

Lemma empty_hash_key : (str_size [] =? 0) = true.
Proof. reflexivity. Qed.

End Validation.

Local Ltac reject :=
  unfold refused, rejected_with, wait_return, enter, complete, invoke;
  repeat split; intros; simpl; try reflexivity;
  repeat case_match; reflexivity.

(** C5: with a hash-key of 65536 bytes or more, every operation that takes a
    hash-key is refused with [PERR_INVALID_HASH_KEY] on the spot and sends
    nothing: the blocking forms return the code, the asynchronous forms run
    their continuation with it before returning (a null continuation is
    skipped) and leave the wire untouched. *)
Theorem oversized_hash_key_rejected
    {E : dsn_error_codes} {PE : pegasus_error_codes} {K : key_schema}
    {D : client_defaults} {T : transport} {M : client_members}
    (hash_key : blob) :
  65536 <= str_size hash_key ->
  (forall sort_key value timeout_milliseconds ttl_seconds info,
     refused PERR_INVALID_HASH_KEY
       (set hash_key sort_key value timeout_milliseconds ttl_seconds info))
  /\ (forall sort_key value timeout_milliseconds info,
     refused PERR_INVALID_HASH_KEY
       (get hash_key sort_key value timeout_milliseconds info))
  /\ (forall sort_key timeout_milliseconds info,
     refused PERR_INVALID_HASH_KEY (del hash_key sort_key timeout_milliseconds info))
  /\ (forall sort_key ttl_seconds timeout_milliseconds info,
     refused PERR_INVALID_HASH_KEY
       (ttl hash_key sort_key ttl_seconds timeout_milliseconds info))
  /\ (forall sort_key timeout_milliseconds info,
     refused PERR_INVALID_HASH_KEY
       (exist hash_key sort_key timeout_milliseconds info))
  /\ (forall kvs timeout_milliseconds ttl_seconds info,
     refused PERR_INVALID_HASH_KEY
       (multi_set hash_key kvs timeout_milliseconds ttl_seconds info))
  /\ (forall sort_keys values max_fetch_count max_fetch_size
             timeout_milliseconds info,
     refused PERR_INVALID_HASH_KEY
       (multi_get hash_key sort_keys values max_fetch_count max_fetch_size
                  timeout_milliseconds info))
  /\ (forall sort_keys max_fetch_count max_fetch_size timeout_milliseconds info,
     refused PERR_INVALID_HASH_KEY
       (multi_get_sortkeys hash_key sort_keys max_fetch_count max_fetch_size
                           timeout_milliseconds info))
  /\ (forall sort_keys deleted_count timeout_milliseconds info,
     refused PERR_INVALID_HASH_KEY
       (multi_del hash_key sort_keys deleted_count timeout_milliseconds info))
  /\ (forall count timeout_milliseconds info,
     refused PERR_INVALID_HASH_KEY
       (sortkey_count hash_key count timeout_milliseconds info))
  /\ (forall start_sort_key stop_sort_key options,
     get_scanner hash_key start_sort_key stop_sort_key options
     = (PERR_INVALID_HASH_KEY, None))
  /\ (forall S sort_key value timeout_milliseconds ttl_seconds,
     @rejected_with S _ (fun k => k PERR_INVALID_HASH_KEY internal_info_default)
       (fun callback =>
          async_set hash_key sort_key value callback timeout_milliseconds ttl_seconds))
  /\ (forall S sort_key timeout_milliseconds,
     @rejected_with S _
       (fun k => k PERR_INVALID_HASH_KEY [] internal_info_default)
       (fun callback => async_get hash_key sort_key callback timeout_milliseconds))
  /\ (forall S sort_key timeout_milliseconds,
     @rejected_with S _ (fun k => k PERR_INVALID_HASH_KEY internal_info_default)
       (fun callback => async_del hash_key sort_key callback timeout_milliseconds))
  /\ (forall S kvs timeout_milliseconds ttl_seconds,
     @rejected_with S _ (fun k => k PERR_INVALID_HASH_KEY internal_info_default)
       (fun callback =>
          async_multi_set hash_key kvs callback timeout_milliseconds ttl_seconds))
  /\ (forall S sort_keys max_fetch_count max_fetch_size timeout_milliseconds,
     @rejected_with S _
       (fun k => k PERR_INVALID_HASH_KEY [] internal_info_default)
       (fun callback =>
          async_multi_get hash_key sort_keys callback max_fetch_count
                          max_fetch_size timeout_milliseconds))
  /\ (forall S max_fetch_count max_fetch_size timeout_milliseconds,
     @rejected_with S _
       (fun k => k PERR_INVALID_HASH_KEY [] internal_info_default)
       (fun callback =>
          async_multi_get_sortkeys hash_key callback max_fetch_count
                                   max_fetch_size timeout_milliseconds))
  /\ (forall S sort_keys timeout_milliseconds,
     @rejected_with S _
       (fun k => k PERR_INVALID_HASH_KEY 0 internal_info_default)
       (fun callback =>
          async_multi_del hash_key sort_keys callback timeout_milliseconds))
  /\ (forall S start_sortkey stop_sortkey options,
     @rejected_with S _ (fun k => k PERR_INVALID_HASH_KEY None)
       (async_get_scanner hash_key start_sortkey stop_sortkey options)).
Proof.
  intros Hlen. destruct (oversized hash_key Hlen) as [Hbig Hnz].
  unfold set, get, del, exist, ttl, multi_set, multi_get, multi_get_sortkeys,
    multi_del, sortkey_count, async_get_scanner, get_scanner, async_set,
    async_get, async_del, async_multi_set, async_multi_get,
    async_multi_get_sortkeys, async_multi_del.
  rewrite Hbig, Hnz. reject.
Qed.


(** C9: with [max_split_count <= 0] the unordered scan is refused with
    [PERR_INVALID_SPLIT_COUNT] and an empty scanner vector, and the metadata
    service is not queried: the blocking form returns the code and stores the
    empty vector, the asynchronous form runs its continuation with both (a
    null continuation is skipped) and leaves the wire untouched. *)
Theorem invalid_split_count_rejected
    {E : dsn_error_codes} {PE : pegasus_error_codes} {D : client_defaults}
    {T : transport} {M : client_members}
    (max_split_count : Z) (options : scan_options) :
  max_split_count <= 0 ->
  (forall scanners,
     refused PERR_INVALID_SPLIT_COUNT
       (get_unordered_scanners max_split_count options scanners)
     /\ output (get_unordered_scanners max_split_count options scanners) = [])
  /\ (forall S,
     @rejected_with S _ (fun k => k PERR_INVALID_SPLIT_COUNT [])
       (async_get_unordered_scanners max_split_count options)).
Proof.
  intros Hle.
  assert (Hc : (max_split_count <=? 0) = true) by lia.
  unfold get_unordered_scanners, async_get_unordered_scanners.
  rewrite Hc. reject.
Qed.

(** C1 (amended): with an empty hash-key, [multi_set], [multi_get],
    [multi_del], [multi_get_sortkeys] and [sortkey_count] are refused with
    [PERR_INVALID_HASH_KEY] before any request is sent (the asynchronous forms
    run their continuation with it, a null continuation being skipped).  [ttl]
    and [exist] make no such check: like the other single-key operations they
    send the ttl request for the key of (empty, sort-key) and return the
    translation of what the transport reports. *)
Theorem empty_hash_key_validation
    {E : dsn_error_codes} {PE : pegasus_error_codes} {K : key_schema}
    {D : client_defaults} {T : transport} {M : client_members} :
  (forall kvs timeout_milliseconds ttl_seconds info,
     refused PERR_INVALID_HASH_KEY
       (multi_set [] kvs timeout_milliseconds ttl_seconds info))
  /\ (forall sort_keys values max_fetch_count max_fetch_size
             timeout_milliseconds info,
     refused PERR_INVALID_HASH_KEY
       (multi_get [] sort_keys values max_fetch_count max_fetch_size
                  timeout_milliseconds info))
  /\ (forall sort_keys deleted_count timeout_milliseconds info,
     refused PERR_INVALID_HASH_KEY
       (multi_del [] sort_keys deleted_count timeout_milliseconds info))
  /\ (forall sort_keys max_fetch_count max_fetch_size timeout_milliseconds info,
     refused PERR_INVALID_HASH_KEY
       (multi_get_sortkeys [] sort_keys max_fetch_count max_fetch_size
                           timeout_milliseconds info))
  /\ (forall count timeout_milliseconds info,
     refused PERR_INVALID_HASH_KEY
       (sortkey_count [] count timeout_milliseconds info))
  /\ (forall S kvs timeout_milliseconds ttl_seconds,
     @rejected_with S _ (fun k => k PERR_INVALID_HASH_KEY internal_info_default)
       (fun callback =>
          async_multi_set [] kvs callback timeout_milliseconds ttl_seconds))
  /\ (forall S sort_keys max_fetch_count max_fetch_size timeout_milliseconds,
     @rejected_with S _
       (fun k => k PERR_INVALID_HASH_KEY [] internal_info_default)
       (fun callback =>
          async_multi_get [] sort_keys callback max_fetch_count
                          max_fetch_size timeout_milliseconds))
  /\ (forall S max_fetch_count max_fetch_size timeout_milliseconds,
     @rejected_with S _
       (fun k => k PERR_INVALID_HASH_KEY [] internal_info_default)
       (fun callback =>
          async_multi_get_sortkeys [] callback max_fetch_count
                                   max_fetch_size timeout_milliseconds))
  /\ (forall S sort_keys timeout_milliseconds,
     @rejected_with S _
       (fun k => k PERR_INVALID_HASH_KEY 0 internal_info_default)
       (fun callback =>
          async_multi_del [] sort_keys callback timeout_milliseconds))
  /\ (forall sort_key ttl_seconds timeout_milliseconds info,
     let c := {| rpc := RPC_TTL (pegasus_generate_key [] sort_key);
                 timeout := timeout_milliseconds;
                 partition_hash :=
                   pegasus_key_hash (pegasus_generate_key [] sort_key) |} in
     let code := storage_client_error _server_error_to_client
                   (fst (reply_ttl c)) (tr_error (snd (reply_ttl c))) in
     sent (ttl [] sort_key ttl_seconds timeout_milliseconds info) = [c]
     /\ returned (ttl [] sort_key ttl_seconds timeout_milliseconds info)
        = Some code
     /\ sent (exist [] sort_key timeout_milliseconds info) = [c]
     /\ returned (exist [] sort_key timeout_milliseconds info) = Some code).
Proof.
  unfold multi_set, multi_get, multi_get_sortkeys, multi_del, sortkey_count,
    async_multi_set, async_multi_get, async_multi_get_sortkeys, async_multi_del,
    exist, ttl.
  rewrite empty_hash_key.
  replace (UINT16_MAX <=? str_size []) with false by reflexivity.
  reject.
Qed.

(** C10: [exist] returns exactly the code [ttl] returns for the same hash-key,
    sort-key, timeout and info pointer, whatever the ttl variable held before
    the call; it fills [info] the same way and sends the same request, so the
    two share validation (an oversized hash-key is refused, an empty one is
    not) and error mapping. *)
Theorem exist_is_ttl
    {E : dsn_error_codes} {PE : pegasus_error_codes} {K : key_schema}
    {T : transport} {M : client_members}
    (hash_key sort_key : blob) (timeout_milliseconds : Z)
    (info : option internal_info) (ttl_seconds : option Z) :
  returned (exist hash_key sort_key timeout_milliseconds info)
  = returned (ttl hash_key sort_key ttl_seconds timeout_milliseconds info)
  /\ info_out (exist hash_key sort_key timeout_milliseconds info)
     = info_out (ttl hash_key sort_key ttl_seconds timeout_milliseconds info)
  /\ sent (exist hash_key sort_key timeout_milliseconds info)
     = sent (ttl hash_key sort_key ttl_seconds timeout_milliseconds info).
Proof.
  unfold exist, ttl.
  destruct (UINT16_MAX <=? str_size hash_key); simpl; repeat split.
Qed.


(** ** The range scanner *)

Lemma to_N_inj x y : Byte.to_N x = Byte.to_N y -> x = y.
Proof.
  intros Heq. pose proof (Byte.of_to_N x) as Hx.
  rewrite Heq, Byte.of_to_N in Hx. now injection Hx.
Qed.

Lemma str_size_cons_ltb x a y b :
  (str_size (x :: a) <? str_size (y :: b)) = (str_size a <? str_size b).
Proof.
  unfold str_size. simpl length.
  destruct (Z.ltb_spec (Z.of_nat (S (length a))) (Z.of_nat (S (length b))));
    destruct (Z.ltb_spec (Z.of_nat (length a)) (Z.of_nat (length b)));
    (reflexivity || lia).
Qed.

Lemma str_size_cons_eqb x a y b :
  (str_size (x :: a) =? str_size (y :: b)) = (str_size a =? str_size b).
Proof.
  unfold str_size. simpl length.
  destruct (Z.eqb_spec (Z.of_nat (S (length a))) (Z.of_nat (S (length b))));
    destruct (Z.eqb_spec (Z.of_nat (length a)) (Z.of_nat (length b)));
    (reflexivity || lia).
Qed.

(** [memcmp] on the common length, then the lengths: the byte-wise order. *)
Lemma memcmp_lt a : forall b,
  let cmp := memcmp a b (Nat.min (length a) (length b)) in
  (cmp <? 0) || ((cmp =? 0) && (str_size a <? str_size b)) = blob_ltb a b.
Proof.
  induction a as [|x a IH]; intros [|y b]; try reflexivity.
  cbv zeta. rewrite str_size_cons_ltb. simpl.
  destruct (N.ltb_spec (Byte.to_N x) (Byte.to_N y)) as [Hlt|Hge]; [reflexivity|].
  destruct (N.ltb_spec (Byte.to_N y) (Byte.to_N x)) as [Hgt|Hle].
  - destruct (N.eqb_spec (Byte.to_N x) (Byte.to_N y)); [lia | reflexivity].
  - destruct (N.eqb_spec (Byte.to_N x) (Byte.to_N y)); [|lia].
    simpl. apply IH.
Qed.

Lemma memcmp_eq a : forall b,
  let cmp := memcmp a b (Nat.min (length a) (length b)) in
  (cmp =? 0) && (str_size a =? str_size b) = bool_decide (a = b).
Proof.
  induction a as [|x a IH]; intros [|y b]; try reflexivity.
  cbv zeta. rewrite str_size_cons_eqb. simpl.
  destruct (N.ltb_spec (Byte.to_N x) (Byte.to_N y)) as [Hlt|Hge].
  - simpl. symmetry. apply bool_decide_eq_false. intros [= -> _]. lia.
  - destruct (N.ltb_spec (Byte.to_N y) (Byte.to_N x)) as [Hgt|Hle].
    + simpl. symmetry. apply bool_decide_eq_false. intros [= -> _]. lia.
    + assert (x = y) as -> by (apply to_N_inj; lia).
      specialize (IH b). cbv zeta in IH. rewrite IH.
      apply bool_decide_ext. split; [intros ->; reflexivity | now intros [= ->]].
Qed.

(** The guard of [get_scanner] holds exactly when [start] is below [stop]
    byte-wise, or equal to it with both bounds inclusive. *)
Lemma scan_range_nonempty_spec start stop o :
  scan_range_nonempty start stop o
  = blob_ltb start stop
    || (bool_decide (start = stop) && start_inclusive o && stop_inclusive o).
Proof.
  unfold scan_range_nonempty.
  rewrite <- memcmp_lt, <- memcmp_eq. cbv zeta. reflexivity.
Qed.

(** C4: for a hash-key that passes validation, [get_scanner] returns
    [PERR_OK] and a scanner whose work list is non-empty exactly when the
    encoded start key is below the encoded stop key byte-wise, or equal to it
    with both effective bounds inclusive; in every other case the work list is
    empty and the result is still [PERR_OK]. *)
Theorem get_scanner_work_list
    {PE : pegasus_error_codes} {K : key_schema}
    (hash_key start_sort_key stop_sort_key : blob) (options : scan_options) :
  hash_key <> [] -> str_size hash_key < UINT16_MAX ->
  let o := scanner_options stop_sort_key options in
  let start := scanner_start hash_key start_sort_key in
  let stop := scanner_stop hash_key stop_sort_key in
  exists v,
    get_scanner hash_key start_sort_key stop_sort_key options
    = (PERR_OK, Some (pegasus_scanner_impl v o start stop))
    /\ (v <> [] <->
        blob_ltb start stop = true
        \/ (start = stop /\ start_inclusive o = true /\ stop_inclusive o = true))
    /\ (v = [] \/ v = [pegasus_key_hash start]).
Proof.
  intros Hne Hlen o start stop. unfold get_scanner.
  destruct (Z.leb_spec UINT16_MAX (str_size hash_key)); [lia|].
  rewrite bool_decide_eq_false_2 by assumption.
  fold o start stop. rewrite scan_range_nonempty_spec.
  eexists. split; [reflexivity|].
  destruct (blob_ltb start stop); simpl.
  - split; [|now right]. split; [now left | discriminate].
  - destruct (bool_decide_reflect (start = stop)) as [Heq|Hneq]; simpl.
    + destruct (start_inclusive o), (stop_inclusive o); simpl;
        (split; [|auto]); split;
        solve [ intros _; right; auto | discriminate | congruence
              | intros [?|(_ & ? & ?)]; discriminate ].
    + split; [|now left]. split; [congruence|].
      intros [?|(? & _)]; [discriminate | contradiction].
Qed.


(** ** The key codec and routing *)




(** * Further properties of the client *)

(** Splitting conjunctions only (never an equation). *)
Local Ltac conj_split := repeat match goal with |- _ /\ _ => split end.

(** ** The error table after [init_error] *)

Section ErrorTableContents.
Context {E : dsn_error_codes} {P : pegasus_error_codes}.

(** Registered transport codes are pairwise different and non-negative. *)
Lemma registered_distinct :
  registered E = true -> NoDup (dsn_codes E) /\ Forall (fun c => 0 <= c) (dsn_codes E).
Proof.
  intros HE. pose proof (registered_inv HE) as (H0 & H1 & H2 & H3 & H4 & H5 & H6 & H7 & H8).
  unfold registered in HE. rewrite !andb_true_iff in HE.
  destruct HE as (_ & Hnd). apply bool_decide_eq_true in Hnd.
  split; [exact Hnd|].
  unfold dsn_codes. repeat constructor; lia.
Qed.

(** What the nine transport entries hold once the table is complete. *)
Lemma init_error_transport_entries :
  registered E = true ->
  init_error !! ERR_OK = Some PERR_OK
  /\ init_error !! ERR_TIMEOUT = Some PERR_TIMEOUT
  /\ init_error !! ERR_FILE_OPERATION_FAILED = Some PERR_SERVER_INTERNAL_ERROR
  /\ init_error !! ERR_INVALID_STATE = Some PERR_SERVER_CHANGED
  /\ init_error !! ERR_OBJECT_NOT_FOUND = Some PERR_OBJECT_NOT_FOUND
  /\ init_error !! ERR_NETWORK_FAILURE = Some PERR_NETWORK_FAILURE
  /\ init_error !! ERR_HANDLER_NOT_FOUND = Some PERR_HANDLER_NOT_FOUND
  /\ init_error !! ERR_APP_NOT_EXIST = Some PERR_APP_NOT_EXIST
  /\ init_error !! ERR_APP_EXIST = Some PERR_APP_EXIST.
Proof.
  intros HE.
  assert (Hbase : forall c, 0 <= c ->
            init_error !! c
            = (<[ERR_APP_EXIST:=PERR_APP_EXIST]>
               (<[ERR_APP_NOT_EXIST:=PERR_APP_NOT_EXIST]>
                (<[ERR_HANDLER_NOT_FOUND:=PERR_HANDLER_NOT_FOUND]>
                 (<[ERR_NETWORK_FAILURE:=PERR_NETWORK_FAILURE]>
                  (<[ERR_OBJECT_NOT_FOUND:=PERR_OBJECT_NOT_FOUND]>
                   (<[ERR_INVALID_STATE:=PERR_SERVER_CHANGED]>
                    (<[ERR_FILE_OPERATION_FAILED:=PERR_SERVER_INTERNAL_ERROR]>
                     (<[ERR_TIMEOUT:=PERR_TIMEOUT]>
                      (<[ERR_OK:=PERR_OK]> (∅ : gmap Z Z)))))))))) !! c).
  { intros c Hc. unfold init_error. rewrite lookup_rocksdb_error_loop.
    case_decide; [lia | reflexivity]. }
  pose proof (registered_inv HE) as (H0 & H1 & H2 & H3 & H4 & H5 & H6 & H7 & H8).
  rewrite !Hbase by lia. clear H0 H1 H2 H3 H4 H5 H6 H7 H8 Hbase.
  destruct (registered_distinct HE) as [Hnd _]. unfold dsn_codes in Hnd.
  repeat (apply NoDup_cons in Hnd as [?Hn Hnd]).
  rewrite ?not_elem_of_cons in *. destruct_and!.
  conj_split; rewrite ?lookup_insert_ne by congruence;
    exact (lookup_insert_eq _ _ _).
Qed.

End ErrorTableContents.

(** X1: after [init_error], a transport failure with one of the eight named
    codes is translated to the client code the table pairs it with, whatever
    the storage status field of the (undecoded) response holds. *)
Theorem transport_failure_translation
    {E : dsn_error_codes} {P : pegasus_error_codes} (storage_status : Z) :
  registered E = true ->
  storage_client_error init_error ERR_TIMEOUT storage_status = PERR_TIMEOUT
  /\ storage_client_error init_error ERR_FILE_OPERATION_FAILED storage_status
     = PERR_SERVER_INTERNAL_ERROR
  /\ storage_client_error init_error ERR_INVALID_STATE storage_status
     = PERR_SERVER_CHANGED
  /\ storage_client_error init_error ERR_OBJECT_NOT_FOUND storage_status
     = PERR_OBJECT_NOT_FOUND
  /\ storage_client_error init_error ERR_NETWORK_FAILURE storage_status
     = PERR_NETWORK_FAILURE
  /\ storage_client_error init_error ERR_HANDLER_NOT_FOUND storage_status
     = PERR_HANDLER_NOT_FOUND
  /\ storage_client_error init_error ERR_APP_NOT_EXIST storage_status
     = PERR_APP_NOT_EXIST
  /\ storage_client_error init_error ERR_APP_EXIST storage_status
     = PERR_APP_EXIST.
Proof.
  intros HE.
  pose proof (registered_inv HE) as (H0 & H1 & H2 & H3 & H4 & H5 & H6 & H7 & H8).
  pose proof (init_error_transport_entries HE)
    as (_ & L1 & L2 & L3 & L4 & L5 & L6 & L7 & L8).
  unfold storage_client_error, get_client_error.
  conj_split;
    match goal with
    | |- context [?c =? ERR_OK] =>
        destruct (Z.eqb_spec c ERR_OK) as [Heq|_]; [lia|]
    end;
    [ now rewrite L1 | now rewrite L2 | now rewrite L3 | now rewrite L4
    | now rewrite L5 | now rewrite L6 | now rewrite L7 | now rewrite L8 ].
Qed.

(** X2: [init_error] leaves an entry exactly for the nine named transport
    codes and for the keys -1012 .. -1001; every other server error is
    translated to [PERR_UNKNOWN]. *)
Theorem init_error_entries
    {E : dsn_error_codes} {P : pegasus_error_codes} (server_error : Z) :
  (is_Some (init_error !! server_error)
   <-> server_error ∈ dsn_codes E \/ -1012 <= server_error <= -1001)
  /\ (server_error ∉ dsn_codes E -> ~ (-1012 <= server_error <= -1001) ->
      get_client_error init_error server_error = PERR_UNKNOWN).
Proof.
  assert (Hdom : is_Some (init_error !! server_error)
                 <-> server_error ∈ dsn_codes E \/ -1012 <= server_error <= -1001).
  { unfold init_error, dsn_codes. rewrite lookup_rocksdb_error_loop.
    case_decide as Hr.
    - split; [intros _; right; lia | intros _; eauto].
    - rewrite !lookup_insert_is_Some', lookup_empty, !elem_of_cons, elem_of_nil.
      rewrite <- not_eq_None_Some.
      split; [intros Hk; left | intros [Hk|Hk]; [|lia]]; intuition congruence. }
  split; [exact Hdom|].
  intros Hnot Hrange. unfold get_client_error.
  destruct (init_error !! server_error) eqn:Hl; [|reflexivity].
  exfalso. destruct Hdom as [Hd _]. destruct (Hd ltac:(eauto)); tauto.
Qed.

(** X3: the offset does not keep storage statuses apart from transport codes:
    the storage status [-1000 - c], reported on a successful transport, is
    translated exactly like the transport code [c]; in particular the
    non-zero storage status -1000 is reported as [PERR_OK]. *)
Theorem storage_status_meets_transport_code
    {E : dsn_error_codes} {P : pegasus_error_codes} (c : Z) :
  registered E = true -> c ∈ dsn_codes E -> c <= INT_MAX ->
  -1000 - c <> 0
  /\ storage_client_error init_error ERR_OK (-1000 - c)
     = get_client_error init_error c
  /\ storage_client_error init_error ERR_OK (-1000) = PERR_OK.
Proof.
  intros HE Hc Hmax. unfold INT_MAX in Hmax.
  destruct (registered_distinct HE) as [_ Hpos].
  rewrite Forall_forall in Hpos. specialize (Hpos c Hc).
  split; [lia|]. rewrite !storage_client_error_ok.
  rewrite !get_rocksdb_server_error_nonzero by lia.
  split; [f_equal; lia|].
  unfold get_client_error. change (-1000 - -1000) with 0.
  now rewrite init_error_zero.
Qed.


(** ** Which request an operation sends *)

Local Ltac send_cases :=
  unfold wait_return, enter, complete, invoke, rpc_call;
  repeat split; intros; simpl;
  repeat (case_match; simpl in *; try reflexivity; try discriminate; try lia).

(** X4: a single-key operation ([set], [get], [del], [ttl], [exist]) sends
    exactly one request when the hash-key is shorter than 65535 bytes (the
    empty hash-key included) and none otherwise; the request carries the
    encoded key of (hash-key, sort-key) and the caller's timeout, and is
    routed by the hash of that encoded key. *)
Theorem single_key_request
    {E : dsn_error_codes} {PE : pegasus_error_codes} {K : key_schema}
    {D : client_defaults} {T : transport} {M : client_members}
    (hash_key sort_key : blob) :
  let key := pegasus_generate_key hash_key sort_key in
  let routed (req : request) (timeout_milliseconds : Z) :=
    if str_size hash_key <? UINT16_MAX
    then [ {| rpc := req; timeout := timeout_milliseconds;
              partition_hash := pegasus_key_hash key |} ]
    else [] in
  (forall value timeout_milliseconds ttl_seconds info,
     sent (set hash_key sort_key value timeout_milliseconds ttl_seconds info)
     = routed (RPC_PUT key value (expire_ts ttl_seconds)) timeout_milliseconds)
  /\ (forall value timeout_milliseconds info,
     sent (get hash_key sort_key value timeout_milliseconds info)
     = routed (RPC_GET key) timeout_milliseconds)
  /\ (forall timeout_milliseconds info,
     sent (del hash_key sort_key timeout_milliseconds info)
     = routed (RPC_REMOVE key) timeout_milliseconds)
  /\ (forall ttl_seconds timeout_milliseconds info,
     sent (ttl hash_key sort_key ttl_seconds timeout_milliseconds info)
     = routed (RPC_TTL key) timeout_milliseconds)
  /\ (forall timeout_milliseconds info,
     sent (exist hash_key sort_key timeout_milliseconds info)
     = routed (RPC_TTL key) timeout_milliseconds).
Proof.
  intros key routed. subst key routed.
  unfold set, get, del, exist, ttl, async_set, async_get, async_del.
  send_cases.
Qed.

(** X5: a multi-key operation sends exactly one request when the hash-key is
    non-empty and shorter than 65535 bytes (and, for [multi_set] and
    [multi_del], the collection is non-empty) and none otherwise; the request
    carries the bare hash-key and is routed by the hash of the encoded key of
    (hash-key, empty sort-key).  [multi_get] with an empty sort-key set,
    [multi_get_sortkeys] and [sortkey_count] are sent as they are. *)
Theorem multi_key_request
    {E : dsn_error_codes} {PE : pegasus_error_codes} {K : key_schema}
    {D : client_defaults} {T : transport} {M : client_members}
    (hash_key : blob) :
  let tmp_key := pegasus_generate_key hash_key [] in
  let routed (nonempty : bool) (req : request) (timeout_milliseconds : Z) :=
    if negb (str_size hash_key =? 0) && (str_size hash_key <? UINT16_MAX)
       && nonempty
    then [ {| rpc := req; timeout := timeout_milliseconds;
              partition_hash := pegasus_key_hash tmp_key |} ]
    else [] in
  (forall kvs timeout_milliseconds ttl_seconds info,
     sent (multi_set hash_key kvs timeout_milliseconds ttl_seconds info)
     = routed (negb (bool_decide (kvs = [])))
              (RPC_MULTI_PUT hash_key kvs (expire_ts ttl_seconds))
              timeout_milliseconds)
  /\ (forall sort_keys values max_fetch_count max_fetch_size
             timeout_milliseconds info,
     sent (multi_get hash_key sort_keys values max_fetch_count max_fetch_size
                     timeout_milliseconds info)
     = routed true
              (RPC_MULTI_GET hash_key sort_keys max_fetch_count max_fetch_size
                             false)
              timeout_milliseconds)
  /\ (forall sort_keys max_fetch_count max_fetch_size timeout_milliseconds info,
     sent (multi_get_sortkeys hash_key sort_keys max_fetch_count max_fetch_size
                              timeout_milliseconds info)
     = routed true
              (RPC_MULTI_GET hash_key [] max_fetch_count max_fetch_size true)
              timeout_milliseconds)
  /\ (forall sort_keys deleted_count timeout_milliseconds info,
     sent (multi_del hash_key sort_keys deleted_count timeout_milliseconds info)
     = routed (negb (bool_decide (sort_keys = [])))
              (RPC_MULTI_REMOVE hash_key sort_keys) timeout_milliseconds)
  /\ (forall count timeout_milliseconds info,
     sent (sortkey_count hash_key count timeout_milliseconds info)
     = routed true (RPC_SORTKEY_COUNT hash_key) timeout_milliseconds).
Proof.
  intros tmp_key routed. subst tmp_key routed.
  unfold multi_set, multi_get, multi_get_sortkeys, multi_del, sortkey_count,
    async_multi_set, async_multi_get, async_multi_get_sortkeys, async_multi_del.
  send_cases.
Qed.

(** X6: with a valid hash-key, [multi_set] with no key-value pair and
    [multi_del] with no sort-key are refused with [PERR_INVALID_VALUE] before
    any request is sent; the asynchronous forms run their continuation with
    that code, a zero count and a default envelope. *)
Theorem empty_collection_rejected
    {E : dsn_error_codes} {PE : pegasus_error_codes} {K : key_schema}
    {D : client_defaults} {T : transport} {M : client_members}
    (hash_key : blob) :
  hash_key <> [] -> str_size hash_key < UINT16_MAX ->
  (forall timeout_milliseconds ttl_seconds info,
     refused PERR_INVALID_VALUE
       (multi_set hash_key [] timeout_milliseconds ttl_seconds info))
  /\ (forall deleted_count timeout_milliseconds info,
     refused PERR_INVALID_VALUE
       (multi_del hash_key [] deleted_count timeout_milliseconds info)
     /\ output (multi_del hash_key [] deleted_count timeout_milliseconds info)
        = 0)
  /\ (forall S timeout_milliseconds ttl_seconds,
     @rejected_with S _ (fun k => k PERR_INVALID_VALUE internal_info_default)
       (fun callback =>
          async_multi_set hash_key [] callback timeout_milliseconds ttl_seconds))
  /\ (forall S timeout_milliseconds,
     @rejected_with S _ (fun k => k PERR_INVALID_VALUE 0 internal_info_default)
       (fun callback =>
          async_multi_del hash_key [] callback timeout_milliseconds)).
Proof.
  intros Hne Hlen.
  assert (Hsz : (str_size hash_key =? 0) = false).
  { destruct hash_key; [contradiction|]. apply Z.eqb_neq. unfold str_size.
    cbn [length]. lia. }
  assert (Hbig : (UINT16_MAX <=? str_size hash_key) = false) by lia.
  unfold multi_set, multi_del, async_multi_set, async_multi_del.
  rewrite Hsz, Hbig. reject.
Qed.

(** X7: [get_scanner] assigns a scanner exactly when the hash-key is non-empty
    and shorter than 65535 bytes, and then returns [PERR_OK]; otherwise it
    returns [PERR_INVALID_HASH_KEY] and leaves the out parameter alone.  The
    scanner it builds keeps the caller's options, except that [stop_inclusive]
    is cleared when no stop sort-key is given, in which case the stop bound is
    the successor key of the hash-key. *)
Theorem get_scanner_validation
    {PE : pegasus_error_codes} {K : key_schema}
    (hash_key start_sort_key stop_sort_key : blob) (options : scan_options) :
  (hash_key = [] \/ UINT16_MAX <= str_size hash_key ->
   get_scanner hash_key start_sort_key stop_sort_key options
   = (PERR_INVALID_HASH_KEY, None))
  /\ (hash_key <> [] -> str_size hash_key < UINT16_MAX ->
      exists v o stop,
        get_scanner hash_key start_sort_key stop_sort_key options
        = (PERR_OK,
           Some (pegasus_scanner_impl v o
                   (pegasus_generate_key hash_key start_sort_key) stop))
        /\ timeout_ms o = timeout_ms options
        /\ batch_size o = batch_size options
        /\ snapshot o = snapshot options
        /\ start_inclusive o = start_inclusive options
        /\ (stop_sort_key = [] ->
            stop_inclusive o = false
            /\ stop = pegasus_generate_next_blob hash_key)
        /\ (stop_sort_key <> [] ->
            stop_inclusive o = stop_inclusive options
            /\ stop = pegasus_generate_key hash_key stop_sort_key)).
Proof.
  unfold get_scanner, scanner_options, scanner_start, scanner_stop. split.
  - intros [-> | Hbig].
    + destruct (UINT16_MAX <=? str_size []); reflexivity.
    + destruct (Z.leb_spec UINT16_MAX (str_size hash_key)); [reflexivity | lia].
  - intros Hne Hlen.
    destruct (Z.leb_spec UINT16_MAX (str_size hash_key)); [lia|].
    rewrite (bool_decide_eq_false_2 (hash_key = [])) by assumption.
    do 3 eexists. split; [reflexivity|].
    destruct (bool_decide_reflect (stop_sort_key = [])); simpl;
      repeat split; try reflexivity; intros; congruence.
Qed.

(** X8: fire-and-forget.  Called with a null continuation, an asynchronous
    storage operation puts the same calls on the wire as with a continuation
    and leaves the caller's memory alone.  [async_get_scanner] and
    [async_get_unordered_scanners] do nothing at all without a continuation:
    no scanner is built and the metadata service is not queried. *)
Theorem fire_and_forget
    {E : dsn_error_codes} {PE : pegasus_error_codes} {K : key_schema}
    {D : client_defaults} {T : transport} {M : client_members}
    {S : Type} (w : world S) :
  (forall hash_key sort_key value k timeout_milliseconds ttl_seconds,
     let none := async_set hash_key sort_key value None
                           timeout_milliseconds ttl_seconds w in
     wire none = wire (async_set hash_key sort_key value (Some k)
                                 timeout_milliseconds ttl_seconds w)
     /\ mem none = mem w)
  /\ (forall hash_key kvs k timeout_milliseconds ttl_seconds,
     let none := async_multi_set hash_key kvs None
                                 timeout_milliseconds ttl_seconds w in
     wire none = wire (async_multi_set hash_key kvs (Some k)
                                       timeout_milliseconds ttl_seconds w)
     /\ mem none = mem w)
  /\ (forall hash_key sort_key k timeout_milliseconds,
     let none := async_get hash_key sort_key None timeout_milliseconds w in
     wire none = wire (async_get hash_key sort_key (Some k)
                                 timeout_milliseconds w)
     /\ mem none = mem w)
  /\ (forall hash_key sort_keys k max_fetch_count max_fetch_size
             timeout_milliseconds,
     let none := async_multi_get hash_key sort_keys None max_fetch_count
                                 max_fetch_size timeout_milliseconds w in
     wire none = wire (async_multi_get hash_key sort_keys (Some k)
                         max_fetch_count max_fetch_size timeout_milliseconds w)
     /\ mem none = mem w)
  /\ (forall hash_key k max_fetch_count max_fetch_size timeout_milliseconds,
     let none := async_multi_get_sortkeys hash_key None max_fetch_count
                   max_fetch_size timeout_milliseconds w in
     wire none = wire (async_multi_get_sortkeys hash_key (Some k)
                         max_fetch_count max_fetch_size timeout_milliseconds w)
     /\ mem none = mem w)
  /\ (forall hash_key sort_key k timeout_milliseconds,
     let none := async_del hash_key sort_key None timeout_milliseconds w in
     wire none = wire (async_del hash_key sort_key (Some k)
                                 timeout_milliseconds w)
     /\ mem none = mem w)
  /\ (forall hash_key sort_keys k timeout_milliseconds,
     let none := async_multi_del hash_key sort_keys None timeout_milliseconds w in
     wire none = wire (async_multi_del hash_key sort_keys (Some k)
                                       timeout_milliseconds w)
     /\ mem none = mem w)
  /\ (forall hash_key start_sortkey stop_sortkey options,
     async_get_scanner hash_key start_sortkey stop_sortkey options None w = w)
  /\ (forall max_split_count options,
     async_get_unordered_scanners max_split_count options None w = w).
Proof.
  unfold async_set, async_multi_set, async_get, async_multi_get,
    async_multi_get_sortkeys, async_del, async_multi_del, async_get_scanner,
    async_get_unordered_scanners, rpc_call, invoke.
  repeat split; intros; simpl;
    repeat (case_match; simpl in *; try reflexivity).
Qed.


(** ** What an operation reports for what the transport reports *)

Section Outcomes.
Context {E : dsn_error_codes} {PE : pegasus_error_codes} {K : key_schema}
        {D : client_defaults} {T : transport} {M : client_members}.
Variable hash_key : blob.
Hypothesis Hne : hash_key <> [].
Hypothesis Hlen : str_size hash_key < UINT16_MAX.

Lemma valid_hash_key_tests :
  (str_size hash_key =? 0) = false /\ (UINT16_MAX <=? str_size hash_key) = false.
Proof.
  split; [|lia]. destruct hash_key; [contradiction|].
  apply Z.eqb_neq. unfold str_size. cbn [length]. lia.
Qed.

Local Ltac run :=
  destruct valid_hash_key_tests as [Hsz Hbig];
  unfold wait_return, enter, complete, invoke, rpc_call;
  rewrite ?Hsz, ?Hbig; simpl;
  rewrite ?bool_decide_eq_false_2 by assumption;
  match goal with
  | |- context [reply_update ?c] => exists c; destruct (reply_update c)
  | |- context [reply_read ?c] => exists c; destruct (reply_read c)
  | |- context [reply_multi_get ?c] => exists c; destruct (reply_multi_get c)
  | |- context [reply_multi_remove ?c] =>
      exists c; destruct (reply_multi_remove c)
  | |- context [reply_ttl ?c] => exists c
  | |- context [reply_count ?c] => exists c
  end;
  simpl; try reflexivity.

(** The blocking operations on a valid hash-key, as functions of the
    completion the transport reports for the one call they send. *)
Lemma set_outcome sort_key value timeout_milliseconds ttl_seconds info :
  exists c,
    set hash_key sort_key value timeout_milliseconds ttl_seconds info
    = Outcome
        (Some (storage_client_error _server_error_to_client
                 (fst (reply_update c)) (ur_error (snd (reply_update c)))))
        tt
        (match info with
         | Some _ =>
             Some (if fst (reply_update c) =? ERR_OK
                   then {| app_id := ur_app_id (snd (reply_update c));
                           partition_index :=
                             ur_partition_index (snd (reply_update c));
                           decree := ur_decree (snd (reply_update c));
                           server := ur_server (snd (reply_update c)) |}
                   else internal_info_default)
         | None => None
         end)
        [c].
Proof. unfold set, async_set. run. Qed.

Lemma multi_set_outcome kvs timeout_milliseconds ttl_seconds info :
  kvs <> [] ->
  exists c,
    multi_set hash_key kvs timeout_milliseconds ttl_seconds info
    = Outcome
        (Some (storage_client_error _server_error_to_client
                 (fst (reply_update c)) (ur_error (snd (reply_update c)))))
        tt
        (match info with
         | Some _ =>
             Some (if fst (reply_update c) =? ERR_OK
                   then {| app_id := ur_app_id (snd (reply_update c));
                           partition_index :=
                             ur_partition_index (snd (reply_update c));
                           decree := ur_decree (snd (reply_update c));
                           server := ur_server (snd (reply_update c)) |}
                   else internal_info_default)
         | None => None
         end)
        [c].
Proof. intros Hkvs. unfold multi_set, async_multi_set. run. Qed.

Lemma del_outcome sort_key timeout_milliseconds info :
  exists c,
    del hash_key sort_key timeout_milliseconds info
    = Outcome
        (Some (storage_client_error _server_error_to_client
                 (fst (reply_update c)) (ur_error (snd (reply_update c)))))
        tt
        (match info with
         | Some _ =>
             Some (if fst (reply_update c) =? ERR_OK
                   then {| app_id := ur_app_id (snd (reply_update c));
                           partition_index :=
                             ur_partition_index (snd (reply_update c));
                           decree := ur_decree (snd (reply_update c));
                           server := ur_server (snd (reply_update c)) |}
                   else internal_info_default)
         | None => None
         end)
        [c].
Proof. unfold del, async_del. run. Qed.

Lemma get_outcome sort_key value timeout_milliseconds info :
  exists c,
    get hash_key sort_key value timeout_milliseconds info
    = Outcome
        (Some (storage_client_error _server_error_to_client
                 (fst (reply_read c)) (rr_error (snd (reply_read c)))))
        (if fst (reply_read c) =? ERR_OK
         then if rr_error (snd (reply_read c)) =? 0
              then rr_value (snd (reply_read c)) else []
         else [])
        (match info with
         | Some _ =>
             Some (if fst (reply_read c) =? ERR_OK
                   then {| app_id := rr_app_id (snd (reply_read c));
                           partition_index :=
                             rr_partition_index (snd (reply_read c));
                           decree := decree internal_info_default;
                           server := rr_server (snd (reply_read c)) |}
                   else internal_info_default)
         | None => None
         end)
        [c].
Proof. unfold get, async_get. run. Qed.

Lemma multi_get_outcome sort_keys values max_fetch_count max_fetch_size
    timeout_milliseconds info :
  exists c,
    multi_get hash_key sort_keys values max_fetch_count max_fetch_size
              timeout_milliseconds info
    = Outcome
        (Some (storage_client_error _server_error_to_client
                 (fst (reply_multi_get c)) (mg_error (snd (reply_multi_get c)))))
        (if fst (reply_multi_get c) =? ERR_OK
         then fold_left (fun vs kv => map_emplace (fst kv) (snd kv) vs)
                        (mg_kvs (snd (reply_multi_get c))) []
         else [])
        (match info with
         | Some _ =>
             Some (if fst (reply_multi_get c) =? ERR_OK
                   then {| app_id := mg_app_id (snd (reply_multi_get c));
                           partition_index :=
                             mg_partition_index (snd (reply_multi_get c));
                           decree := decree internal_info_default;
                           server := mg_server (snd (reply_multi_get c)) |}
                   else internal_info_default)
         | None => None
         end)
        [c].
Proof. unfold multi_get, async_multi_get. run. Qed.

Lemma multi_get_sortkeys_outcome sort_keys max_fetch_count max_fetch_size
    timeout_milliseconds info :
  exists c,
    multi_get_sortkeys hash_key sort_keys max_fetch_count max_fetch_size
                       timeout_milliseconds info
    = Outcome
        (Some (storage_client_error _server_error_to_client
                 (fst (reply_multi_get c)) (mg_error (snd (reply_multi_get c)))))
        (if fst (reply_multi_get c) =? ERR_OK
         then fold_left (fun ks kv => set_insert (fst kv) ks)
                        (mg_kvs (snd (reply_multi_get c))) []
         else [])
        (match info with
         | Some _ =>
             Some (if fst (reply_multi_get c) =? ERR_OK
                   then {| app_id := mg_app_id (snd (reply_multi_get c));
                           partition_index :=
                             mg_partition_index (snd (reply_multi_get c));
                           decree := decree internal_info_default;
                           server := mg_server (snd (reply_multi_get c)) |}
                   else internal_info_default)
         | None => None
         end)
        [c].
Proof. unfold multi_get_sortkeys, async_multi_get_sortkeys. run. Qed.

Lemma multi_del_outcome sort_keys deleted_count timeout_milliseconds info :
  sort_keys <> [] ->
  exists c,
    multi_del hash_key sort_keys deleted_count timeout_milliseconds info
    = Outcome
        (Some (storage_client_error _server_error_to_client
                 (fst (reply_multi_remove c))
                 (mr_error (snd (reply_multi_remove c)))))
        (if fst (reply_multi_remove c) =? ERR_OK
         then mr_count (snd (reply_multi_remove c)) else 0)
        (match info with
         | Some _ =>
             Some (if fst (reply_multi_remove c) =? ERR_OK
                   then {| app_id := mr_app_id (snd (reply_multi_remove c));
                           partition_index :=
                             mr_partition_index (snd (reply_multi_remove c));
                           decree := mr_decree (snd (reply_multi_remove c));
                           server := mr_server (snd (reply_multi_remove c)) |}
                   else internal_info_default)
         | None => None
         end)
        [c].
Proof. intros Hkeys. unfold multi_del, async_multi_del. run. Qed.

Lemma ttl_outcome sort_key ttl_seconds timeout_milliseconds info :
  exists c,
    ttl hash_key sort_key ttl_seconds timeout_milliseconds info
    = Outcome
        (Some (storage_client_error _server_error_to_client
                 (fst (reply_ttl c)) (tr_error (snd (reply_ttl c)))))
        (if (fst (reply_ttl c) =? ERR_OK) && (tr_error (snd (reply_ttl c)) =? 0)
         then Some (tr_ttl_seconds (snd (reply_ttl c))) else ttl_seconds)
        (match info with
         | Some i =>
             Some (if fst (reply_ttl c) =? ERR_OK
                   then {| app_id := tr_app_id (snd (reply_ttl c));
                           partition_index :=
                             tr_partition_index (snd (reply_ttl c));
                           decree := -1;
                           server := tr_server (snd (reply_ttl c)) |}
                   else reset_info i)
         | None => None
         end)
        [c].
Proof.
  unfold ttl. run.
  f_equal. destruct info; [|reflexivity]. now case_match.
Qed.

Lemma sortkey_count_outcome count timeout_milliseconds info :
  exists c,
    sortkey_count hash_key count timeout_milliseconds info
    = Outcome
        (Some (storage_client_error _server_error_to_client
                 (fst (reply_count c)) (cr_error (snd (reply_count c)))))
        (if (fst (reply_count c) =? ERR_OK) && (cr_error (snd (reply_count c)) =? 0)
         then cr_count (snd (reply_count c)) else count)
        (match info with
         | Some i =>
             Some (if fst (reply_count c) =? ERR_OK
                   then {| app_id := cr_app_id (snd (reply_count c));
                           partition_index :=
                             cr_partition_index (snd (reply_count c));
                           decree := -1;
                           server := cr_server (snd (reply_count c)) |}
                   else reset_info i)
         | None => None
         end)
        [c].
Proof.
  unfold sortkey_count. run.
  f_equal. destruct info; [|reflexivity]. now case_match.
Qed.

End Outcomes.


Local Ltac use_outcome H :=
  let c := fresh "c" in
  let Hc := fresh "Hc" in
  destruct H as [c Hc]; rewrite Hc; clear Hc; simpl.

Local Ltac pick_outcome Hne Hlen :=
  match goal with
  | |- context [set ?h ?s ?v ?t ?l ?i] =>
      use_outcome (set_outcome h Hne Hlen s v t l i)
  | |- context [multi_set ?h ?kvs ?t ?l ?i] =>
      use_outcome (multi_set_outcome h Hne Hlen kvs t l i ltac:(assumption))
  | |- context [del ?h ?s ?t ?i] =>
      use_outcome (del_outcome h Hne Hlen s t i)
  | |- context [get ?h ?s ?v ?t ?i] =>
      use_outcome (get_outcome h Hne Hlen s v t i)
  | |- context [multi_get ?h ?ks ?vs ?a ?b ?t ?i] =>
      use_outcome (multi_get_outcome h Hne Hlen ks vs a b t i)
  | |- context [multi_get_sortkeys ?h ?ks ?a ?b ?t ?i] =>
      use_outcome (multi_get_sortkeys_outcome h Hne Hlen ks a b t i)
  | |- context [multi_del ?h ?ks ?n ?t ?i] =>
      use_outcome (multi_del_outcome h Hne Hlen ks n t i ltac:(assumption))
  | |- context [exist ?h ?s ?t ?i] =>
      unfold exist; use_outcome (ttl_outcome h Hne Hlen s None t i)
  | |- context [ttl ?h ?s ?l ?t ?i] =>
      use_outcome (ttl_outcome h Hne Hlen s l t i)
  | |- context [sortkey_count ?h ?n ?t ?i] =>
      use_outcome (sortkey_count_outcome h Hne Hlen n t i)
  end.

Local Ltac enter_case :=
  intros; repeat match goal with r := _ |- _ => subst r end.

(** X9: when the transport fails a call (any code but [ERR_OK]), the
    operation returns the translation of that transport code alone and the
    response is not read: [get], [multi_get] and [multi_get_sortkeys] hand
    back empty results and [multi_del] a zero count, [ttl] and
    [sortkey_count] leave the caller's variable as it was, the bridged
    operations store a default envelope, [ttl], [exist] and [sortkey_count]
    reset the three numbers of the envelope to -1 and keep its server, and
    [get_unordered_scanners] hands back no scanner. *)
Theorem transport_failure_outcome
    {E : dsn_error_codes} {PE : pegasus_error_codes} {K : key_schema}
    {D : client_defaults} {T : transport} {M : client_members}
    (hash_key : blob) (err : Z) :
  hash_key <> [] -> str_size hash_key < UINT16_MAX ->
  err <> ERR_OK -> transport_reports T err ->
  let code := Some (get_client_error _server_error_to_client err) in
  let envelope (info : option internal_info) :=
    option_map (fun _ => internal_info_default) info in
  (forall sort_key value timeout_milliseconds ttl_seconds info,
     let r := set hash_key sort_key value timeout_milliseconds ttl_seconds info in
     returned r = code /\ info_out r = envelope info)
  /\ (forall kvs timeout_milliseconds ttl_seconds info, kvs <> [] ->
     let r := multi_set hash_key kvs timeout_milliseconds ttl_seconds info in
     returned r = code /\ info_out r = envelope info)
  /\ (forall sort_key timeout_milliseconds info,
     let r := del hash_key sort_key timeout_milliseconds info in
     returned r = code /\ info_out r = envelope info)
  /\ (forall sort_key value timeout_milliseconds info,
     let r := get hash_key sort_key value timeout_milliseconds info in
     returned r = code /\ output r = [] /\ info_out r = envelope info)
  /\ (forall sort_keys values max_fetch_count max_fetch_size
             timeout_milliseconds info,
     let r := multi_get hash_key sort_keys values max_fetch_count
                        max_fetch_size timeout_milliseconds info in
     returned r = code /\ output r = [] /\ info_out r = envelope info)
  /\ (forall sort_keys max_fetch_count max_fetch_size timeout_milliseconds info,
     let r := multi_get_sortkeys hash_key sort_keys max_fetch_count
                                 max_fetch_size timeout_milliseconds info in
     returned r = code /\ output r = [] /\ info_out r = envelope info)
  /\ (forall sort_keys deleted_count timeout_milliseconds info,
     sort_keys <> [] ->
     let r := multi_del hash_key sort_keys deleted_count
                        timeout_milliseconds info in
     returned r = code /\ output r = 0 /\ info_out r = envelope info)
  /\ (forall sort_key ttl_seconds timeout_milliseconds info,
     let r := ttl hash_key sort_key ttl_seconds timeout_milliseconds info in
     returned r = code /\ output r = ttl_seconds
     /\ info_out r = option_map reset_info info)
  /\ (forall sort_key timeout_milliseconds info,
     let r := exist hash_key sort_key timeout_milliseconds info in
     returned r = code /\ info_out r = option_map reset_info info)
  /\ (forall count timeout_milliseconds info,
     let r := sortkey_count hash_key count timeout_milliseconds info in
     returned r = code /\ output r = count
     /\ info_out r = option_map reset_info info)
  /\ (forall max_split_count options scanners, 0 < max_split_count ->
     let r := get_unordered_scanners max_split_count options scanners in
     returned r = code /\ output r = []).
Proof.
  intros Hne Hlen Herr Hrep code envelope. subst code envelope.
  assert (Hneq : (err =? ERR_OK) = false) by now apply Z.eqb_neq.
  conj_split; enter_case.
  1-10: pick_outcome Hne Hlen;
    destruct (Hrep c) as (R1 & R2 & R3 & R4 & R5 & R6 & R7);
    unfold storage_client_error;
    rewrite ?R1, ?R2, ?R3, ?R4, ?R5, ?R6, ?Hneq; simpl;
    destruct info; conj_split; reflexivity.
  unfold get_unordered_scanners, async_get_unordered_scanners,
    rpc_call_abortable, wait_return, enter.
  destruct (Z.leb_spec max_split_count 0); [lia|].
  match goal with
  | |- context [reply_config ?c] =>
      destruct (Hrep c) as (_ & _ & _ & _ & _ & _ & R7);
      destruct (reply_config c) as [e resp]
  end.
  simpl in R7. subst e. simpl. now rewrite Hneq.
Qed.


(** X10: when the transport succeeds and the storage engine answers with a
    known status k, 1 <= k <= 12, every storage operation returns the client
    code -1000 - k.  [get] then hands back an empty value, and [ttl] and
    [sortkey_count] leave the caller's variable as it was. *)
Theorem storage_failure_outcome
    {E : dsn_error_codes} {PE : pegasus_error_codes} {K : key_schema}
    {D : client_defaults} {T : transport} {M : client_members}
    (hash_key : blob) (k : Z) :
  hash_key <> [] -> str_size hash_key < UINT16_MAX ->
  _server_error_to_client = init_error ->
  transport_reports T ERR_OK -> storage_reports T k -> 1 <= k <= 12 ->
  (forall sort_key value timeout_milliseconds ttl_seconds info,
     returned (set hash_key sort_key value timeout_milliseconds ttl_seconds info)
     = Some (-1000 - k))
  /\ (forall kvs timeout_milliseconds ttl_seconds info, kvs <> [] ->
     returned (multi_set hash_key kvs timeout_milliseconds ttl_seconds info)
     = Some (-1000 - k))
  /\ (forall sort_key timeout_milliseconds info,
     returned (del hash_key sort_key timeout_milliseconds info)
     = Some (-1000 - k))
  /\ (forall sort_key value timeout_milliseconds info,
     let r := get hash_key sort_key value timeout_milliseconds info in
     returned r = Some (-1000 - k) /\ output r = [])
  /\ (forall sort_keys values max_fetch_count max_fetch_size
             timeout_milliseconds info,
     returned (multi_get hash_key sort_keys values max_fetch_count
                         max_fetch_size timeout_milliseconds info)
     = Some (-1000 - k))
  /\ (forall sort_keys max_fetch_count max_fetch_size timeout_milliseconds info,
     returned (multi_get_sortkeys hash_key sort_keys max_fetch_count
                                  max_fetch_size timeout_milliseconds info)
     = Some (-1000 - k))
  /\ (forall sort_keys deleted_count timeout_milliseconds info,
     sort_keys <> [] ->
     returned (multi_del hash_key sort_keys deleted_count
                         timeout_milliseconds info)
     = Some (-1000 - k))
  /\ (forall sort_key ttl_seconds timeout_milliseconds info,
     let r := ttl hash_key sort_key ttl_seconds timeout_milliseconds info in
     returned r = Some (-1000 - k) /\ output r = ttl_seconds)
  /\ (forall sort_key timeout_milliseconds info,
     returned (exist hash_key sort_key timeout_milliseconds info)
     = Some (-1000 - k))
  /\ (forall count timeout_milliseconds info,
     let r := sortkey_count hash_key count timeout_milliseconds info in
     returned r = Some (-1000 - k) /\ output r = count).
Proof.
  intros Hne Hlen Htable Hrep Hsto Hk.
  assert (Hkz : (k =? 0) = false) by lia.
  conj_split; enter_case; pick_outcome Hne Hlen;
    destruct (Hrep c) as (R1 & R2 & R3 & R4 & R5 & R6 & _);
    destruct (Hsto c) as (S1 & S2 & S3 & S4 & S5 & S6);
    rewrite ?R1, ?R2, ?R3, ?R4, ?R5, ?R6, ?S1, ?S2, ?S3, ?S4, ?S5, ?S6,
      Htable, ?known_status_code, ?Z.eqb_refl, ?Hkz by assumption;
    conj_split; reflexivity.
Qed.

(** X11: when the transport succeeds and the storage status is 0, every
    storage operation returns [PERR_OK] (after [init_error]) and hands back
    what the response carries: [get] the value, [multi_del] the count, [ttl]
    the ttl, [sortkey_count] the count; this holds whether [info] is null or
    not.  A non-null [info] receives the application id, partition index and
    server of the response; the write sequence number is stored by the write
    operations only, the read operations leave the default decree and [ttl],
    [exist] and [sortkey_count] store -1.  With a null [info] no envelope is
    stored. *)
Theorem success_outcome
    {E : dsn_error_codes} {PE : pegasus_error_codes} {K : key_schema}
    {D : client_defaults} {T : transport} {M : client_members}
    (hash_key : blob) :
  hash_key <> [] -> str_size hash_key < UINT16_MAX ->
  registered E = true -> _server_error_to_client = init_error ->
  transport_reports T ERR_OK -> storage_reports T 0 ->
  (forall sort_key value timeout_milliseconds ttl_seconds info,
     let r := set hash_key sort_key value timeout_milliseconds ttl_seconds info in
     exists c, sent r = [c] /\ returned r = Some PERR_OK
       /\ info_out r
          = option_map (fun _ => {| app_id := ur_app_id (snd (reply_update c));
                    partition_index := ur_partition_index (snd (reply_update c));
                    decree := ur_decree (snd (reply_update c));
                    server := ur_server (snd (reply_update c)) |}) info)
  /\ (forall kvs timeout_milliseconds ttl_seconds info, kvs <> [] ->
     let r := multi_set hash_key kvs timeout_milliseconds ttl_seconds info in
     exists c, sent r = [c] /\ returned r = Some PERR_OK
       /\ info_out r
          = option_map (fun _ => {| app_id := ur_app_id (snd (reply_update c));
                    partition_index := ur_partition_index (snd (reply_update c));
                    decree := ur_decree (snd (reply_update c));
                    server := ur_server (snd (reply_update c)) |}) info)
  /\ (forall sort_key timeout_milliseconds info,
     let r := del hash_key sort_key timeout_milliseconds info in
     exists c, sent r = [c] /\ returned r = Some PERR_OK
       /\ info_out r
          = option_map (fun _ => {| app_id := ur_app_id (snd (reply_update c));
                    partition_index := ur_partition_index (snd (reply_update c));
                    decree := ur_decree (snd (reply_update c));
                    server := ur_server (snd (reply_update c)) |}) info)
  /\ (forall sort_keys deleted_count timeout_milliseconds info, sort_keys <> [] ->
     let r := multi_del hash_key sort_keys deleted_count timeout_milliseconds info in
     exists c, sent r = [c] /\ returned r = Some PERR_OK
       /\ output r = mr_count (snd (reply_multi_remove c))
       /\ info_out r
          = option_map (fun _ => {| app_id := mr_app_id (snd (reply_multi_remove c));
                    partition_index :=
                      mr_partition_index (snd (reply_multi_remove c));
                    decree := mr_decree (snd (reply_multi_remove c));
                    server := mr_server (snd (reply_multi_remove c)) |}) info)
  /\ (forall sort_key value timeout_milliseconds info,
     let r := get hash_key sort_key value timeout_milliseconds info in
     exists c, sent r = [c] /\ returned r = Some PERR_OK
       /\ output r = rr_value (snd (reply_read c))
       /\ info_out r
          = option_map (fun _ => {| app_id := rr_app_id (snd (reply_read c));
                    partition_index := rr_partition_index (snd (reply_read c));
                    decree := decree internal_info_default;
                    server := rr_server (snd (reply_read c)) |}) info)
  /\ (forall sort_key ttl_seconds timeout_milliseconds info,
     let r := ttl hash_key sort_key ttl_seconds timeout_milliseconds info in
     exists c, sent r = [c] /\ returned r = Some PERR_OK
       /\ output r = Some (tr_ttl_seconds (snd (reply_ttl c)))
       /\ info_out r
          = option_map (fun _ => {| app_id := tr_app_id (snd (reply_ttl c));
                    partition_index := tr_partition_index (snd (reply_ttl c));
                    decree := -1;
                    server := tr_server (snd (reply_ttl c)) |}) info)
  /\ (forall sort_key timeout_milliseconds info,
     let r := exist hash_key sort_key timeout_milliseconds info in
     exists c, sent r = [c] /\ returned r = Some PERR_OK
       /\ info_out r
          = option_map (fun _ => {| app_id := tr_app_id (snd (reply_ttl c));
                    partition_index := tr_partition_index (snd (reply_ttl c));
                    decree := -1;
                    server := tr_server (snd (reply_ttl c)) |}) info)
  /\ (forall count timeout_milliseconds info,
     let r := sortkey_count hash_key count timeout_milliseconds info in
     exists c, sent r = [c] /\ returned r = Some PERR_OK
       /\ output r = cr_count (snd (reply_count c))
       /\ info_out r
          = option_map (fun _ => {| app_id := cr_app_id (snd (reply_count c));
                    partition_index := cr_partition_index (snd (reply_count c));
                    decree := -1;
                    server := cr_server (snd (reply_count c)) |}) info).
Proof.
  intros Hne Hlen HE Htable Hrep Hsto.
  assert (Hok : storage_client_error init_error ERR_OK 0 = PERR_OK).
  { rewrite storage_client_error_ok.
    unfold get_rocksdb_server_error, get_client_error.
    change (0 =? 0) with true. cbv iota. now rewrite init_error_zero. }
  conj_split; enter_case; pick_outcome Hne Hlen; exists c;
    destruct (Hrep c) as (R1 & R2 & R3 & R4 & R5 & R6 & _);
    destruct (Hsto c) as (S1 & S2 & S3 & S4 & S5 & S6);
    rewrite ?R1, ?R2, ?R3, ?R4, ?R5, ?R6, ?S1, ?S2, ?S3, ?S4, ?S5, ?S6,
      Htable, ?Hok, ?Z.eqb_refl;
    destruct info; simpl; conj_split; reflexivity.
Qed.


(** ** More on the split scan *)

Lemma countdown_split l1 : forall n count l2,
  countdown n count = l1 ++ l2 ->
  l1 = countdown (length l1) count
  /\ l2 = countdown (length l2) (count - Z.of_nat (length l1)).
Proof.
  induction l1 as [|x l1 IH]; intros n count l2 Heq.
  - simpl in *. split; [reflexivity|]. rewrite Z.sub_0_r.
    subst l2. now rewrite length_countdown.
  - destruct n as [|n]; [discriminate|]. simpl in Heq.
    injection Heq as <- Heq. destruct (IH _ _ _ Heq) as [H1 H2].
    split.
    + simpl. now rewrite <- H1.
    + rewrite H2 at 1. f_equal. simpl length. lia.
Qed.

(** Groups whose concatenation is a countdown are countdowns themselves. *)
Lemma concat_countdown_runs (groups : list (list Z)) : forall n count,
  concat groups = countdown n count ->
  forall i g, groups !! i = Some g -> exists top, g = countdown (length g) top.
Proof.
  induction groups as [|g0 groups IH]; intros n count Heq i g Hi.
  - rewrite lookup_nil in Hi. discriminate.
  - simpl in Heq. symmetry in Heq.
    destruct (countdown_split _ _ _ _ Heq) as [H1 H2].
    destruct i as [|i]; simpl in Hi.
    + injection Hi as <-. eauto.
    + eapply IH; [exact H2 | exact Hi].
Qed.

Lemma split_loop_options {D : client_defaults} n :
  forall i size more count opt scanners s,
  split_loop n i size more count opt = Some scanners -> s ∈ scanners ->
  exists hash, s = pegasus_scanner_impl_full hash opt.
Proof.
  induction n as [|n IH]; intros i size more count opt scanners s Hrun Hs;
    simpl in Hrun.
  - injection Hrun as <-. apply elem_of_nil in Hs. contradiction.
  - destruct (_ <? 0); [discriminate|].
    destruct (fill_hash _ _) as [hash count'].
    destruct (split_loop n _ _ _ _ _) as [rest|] eqn:Hrest; [|discriminate].
    injection Hrun as <-.
    apply elem_of_cons in Hs as [-> | Hs]; [eauto | eapply IH; eauto].
Qed.

(** X12: under the conditions of the split (partition count and split count
    in 1 .. INT_MAX, metadata query answered with [ERR_OK]), the scanners taken
    in order hold the partition indices in decreasing order from
    [partitions - 1] down to 0: their work lists concatenate to that run, and
    each work list is itself a run of consecutive indices counting down. *)
Theorem split_scan_descending_runs
    {E : dsn_error_codes} {PE : pegasus_error_codes} {D : client_defaults}
    {T : transport} {M : client_members}
    (partitions max_split_count : Z) (options : scan_options)
    (scanners : list pegasus_scanner) :
  1 <= partitions <= INT_MAX -> 1 <= max_split_count <= INT_MAX ->
  (forall c, reply_config c =
             (ERR_OK, {| cq_err := ERR_OK; cq_partition_count := partitions |})) ->
  let groups :=
    map scanner_hash
        (output (get_unordered_scanners max_split_count options scanners)) in
  concat groups = countdown (Z.to_nat partitions) partitions
  /\ (forall i g, groups !! i = Some g ->
        exists top, g = countdown (length g) top)
  /\ (exists g, groups !! 0%nat = Some g /\ g !! 0%nat = Some (partitions - 1)).
Proof.
  intros HP HS Hreply groups.
  destruct (split_scanners_groups partitions max_split_count options HP HS)
    as (split & Hsplit & Hlen & Hcat & Hsz).
  assert (Hout : output (get_unordered_scanners max_split_count options scanners)
                 = split).
  { apply (get_unordered_scanners_split partitions); try assumption.
    unfold INT_MAX in HS. lia. }
  subst groups. rewrite Hout.
  set (groups := map scanner_hash split) in *.
  split; [exact Hcat|]. split; [eapply concat_countdown_runs; exact Hcat|].
  unfold INT_MAX in HP, HS.
  destruct groups as [|g groups'] eqn:Hg; [simpl in Hlen; lia|].
  exists g. split; [reflexivity|].
  assert (Hnz : Z.of_nat (length g) >= 1).
  { rewrite (Hsz 0%nat g eq_refl).
    assert (1 <= partitions / Z.min max_split_count partitions)
      by (apply Z.div_le_lower_bound; lia).
    destruct (_ <? _); lia. }
  simpl in Hcat. symmetry in Hcat.
  destruct (countdown_split _ _ _ _ Hcat) as [Hrun _].
  rewrite Hrun. destruct (length g); [simpl in Hnz; lia | reflexivity].
Qed.

(** X13: every scanner [get_unordered_scanners] hands back when it returns is
    built without a key range and with the caller's timeout, batch size and
    snapshot; the caller's [start_inclusive] and [stop_inclusive] are not
    passed on, the scanner gets the defaults.  (A call whose completion
    handler divides by zero does not return and leaves the caller's vector as
    it was.) *)
Theorem unordered_scanner_options
    {E : dsn_error_codes} {PE : pegasus_error_codes} {D : client_defaults}
    {T : transport} {M : client_members}
    (max_split_count : Z) (options : scan_options)
    (scanners : list pegasus_scanner) (s : pegasus_scanner) :
  returned (get_unordered_scanners max_split_count options scanners) <> None ->
  s ∈ output (get_unordered_scanners max_split_count options scanners) ->
  exists hash,
    s = pegasus_scanner_impl_full hash
          {| timeout_ms := timeout_ms options;
             batch_size := batch_size options;
             start_inclusive := start_inclusive scan_options_default;
             stop_inclusive := stop_inclusive scan_options_default;
             snapshot := snapshot options |}.
Proof.
  unfold get_unordered_scanners, async_get_unordered_scanners,
    rpc_call_abortable, wait_return, enter, invoke.
  destruct (max_split_count <=? 0); simpl.
  - intros _ Hs. apply elem_of_nil in Hs. contradiction.
  - destruct (reply_config _) as [err resp]. simpl.
    destruct (err =? ERR_OK); [destruct (cq_err resp =? ERR_OK)|]; simpl;
      try (intros _ Hs; apply elem_of_nil in Hs; contradiction).
    destruct (split_scanners _ _ _) as [split|] eqn:Hsplit; simpl;
      [|intros Hret; now contradiction Hret].
    intros _ Hs. unfold split_scanners in Hsplit.
    destruct (_ <? 0); [discriminate|].
    destruct (_ =? 0); [discriminate|].
    eapply split_loop_options; eassumption.
Qed.

(** X14: with a positive split count, [get_unordered_scanners] sends exactly
    one partition-count query, for the client's table name and with the
    timeout of the scan options.  When the transport delivers the answer but
    the metadata service reports an error in it, no scanner is handed back
    and the return code is the translation of that error, taken as a server
    error (no storage offset). *)
Theorem metadata_query_outcome
    {E : dsn_error_codes} {PE : pegasus_error_codes} {D : client_defaults}
    {T : transport} {M : client_members}
    (max_split_count : Z) (options : scan_options)
    (scanners : list pegasus_scanner) :
  0 < max_split_count ->
  let c := {| rpc := RPC_CM_QUERY_PARTITION_CONFIG_BY_INDEX _app_name;
              timeout := timeout_ms options; partition_hash := 0 |} in
  let r := get_unordered_scanners max_split_count options scanners in
  sent r = [c]
  /\ (fst (reply_config c) = ERR_OK -> cq_err (snd (reply_config c)) <> ERR_OK ->
      returned r
      = Some (get_client_error _server_error_to_client
                               (cq_err (snd (reply_config c))))
      /\ output r = []).
Proof.
  intros Hpos c r. subst r.
  unfold get_unordered_scanners, async_get_unordered_scanners,
    rpc_call_abortable, wait_return, enter.
  destruct (Z.leb_spec max_split_count 0); [lia|].
  fold c. destruct (reply_config c) as [err resp]. simpl. split.
  - destruct (if err =? ERR_OK
              then if cq_err resp =? ERR_OK
                   then split_scanners (cq_partition_count resp)
                                       max_split_count options
                   else Some []
              else Some []); reflexivity.
  - intros -> Hmeta.
    rewrite Z.eqb_refl. apply Z.eqb_neq in Hmeta. rewrite Hmeta. now split.
Qed.

(** ** The collections [multi_get] and [multi_get_sortkeys] hand back *)

Lemma blob_ltb_irrefl a : blob_ltb a a = false.
Proof.
  induction a as [|x a IH]; [reflexivity|]. simpl.
  rewrite N.ltb_irrefl, N.eqb_refl. exact IH.
Qed.

Lemma blob_ltb_trans a : forall b c,
  blob_ltb a b = true -> blob_ltb b c = true -> blob_ltb a c = true.
Proof.
  induction a as [|x a IH]; intros [|y b] [|z c]; simpl; try congruence.
  destruct (N.ltb_spec (Byte.to_N x) (Byte.to_N y)),
           (N.ltb_spec (Byte.to_N y) (Byte.to_N z)),
           (N.ltb_spec (Byte.to_N x) (Byte.to_N z)),
           (N.eqb_spec (Byte.to_N x) (Byte.to_N y)),
           (N.eqb_spec (Byte.to_N y) (Byte.to_N z)),
           (N.eqb_spec (Byte.to_N x) (Byte.to_N z));
    simpl; try congruence; try lia.
  apply IH.
Qed.

Lemma blob_ltb_connex a : forall b,
  blob_ltb a b = false -> blob_ltb b a = false -> a = b.
Proof.
  induction a as [|x a IH]; intros [|y b]; simpl; try congruence.
  destruct (N.ltb_spec (Byte.to_N x) (Byte.to_N y)),
           (N.ltb_spec (Byte.to_N y) (Byte.to_N x)),
           (N.eqb_spec (Byte.to_N x) (Byte.to_N y)),
           (N.eqb_spec (Byte.to_N y) (Byte.to_N x));
    simpl; try congruence; try lia.
  intros Hab Hba. f_equal; [now apply to_N_inj | now apply IH].
Qed.

Lemma blob_ltb_neq a b : blob_ltb a b = true -> a <> b.
Proof. intros Hlt ->. rewrite blob_ltb_irrefl in Hlt. discriminate. Qed.

Lemma ascending_tail a l : ascending (a :: l) = true -> ascending l = true.
Proof. destruct l; simpl; [reflexivity|]. now intros [_ ?]%andb_true_iff. Qed.

(** In an ascending list every element is above anything below its head. *)
Lemma ascending_above k l : forall a,
  blob_ltb k a = true -> ascending (a :: l) = true ->
  forall x, x ∈ a :: l -> blob_ltb k x = true.
Proof.
  induction l as [|b l IH]; intros a Hka Hasc x Hx.
  - apply list_elem_of_singleton in Hx as ->. exact Hka.
  - apply elem_of_cons in Hx as [-> | Hx]; [exact Hka|].
    simpl in Hasc. apply andb_true_iff in Hasc as [Hab Hasc].
    apply (IH b); [eapply blob_ltb_trans; eassumption | exact Hasc | exact Hx].
Qed.

Lemma assoc_find_None k m : k ∉ map fst m -> assoc_find k m = None.
Proof.
  induction m as [|[k' v'] m IH]; [reflexivity|]. simpl.
  rewrite not_elem_of_cons. intros [Hne Hnot].
  rewrite bool_decide_eq_false_2 by congruence. now apply IH.
Qed.

Lemma assoc_find_below k k' v' m :
  blob_ltb k k' = true -> ascending (map fst ((k', v') :: m)) = true ->
  assoc_find k ((k', v') :: m) = None.
Proof.
  intros Hlt Hasc. apply assoc_find_None. intros Hin.
  pose proof (ascending_above k (map fst m) k' Hlt Hasc k Hin) as Hkk.
  rewrite blob_ltb_irrefl in Hkk. discriminate.
Qed.

(** [std::map::emplace] keeps the keys ascending ... *)
Lemma map_emplace_ascending k v m :
  ascending (map fst m) = true -> ascending (map fst (map_emplace k v m)) = true.
Proof.
  induction m as [|[k' v'] m IH]; [reflexivity|]. intros Hasc.
  simpl map_emplace.
  destruct (blob_ltb k k') eqn:Hlt.
  - change (blob_ltb k k' && ascending (map fst ((k', v') :: m)) = true).
    now rewrite Hlt.
  - destruct (blob_ltb k' k) eqn:Hgt; [|exact Hasc].
    specialize (IH (ascending_tail _ _ Hasc)).
    destruct m as [|[k2 v2] m]; simpl map_emplace in *.
    + simpl. now rewrite Hgt.
    + simpl in Hasc. apply andb_true_iff in Hasc as [H12 _].
      destruct (blob_ltb k k2); [|destruct (blob_ltb k2 k)].
      * change (blob_ltb k' k && ascending (map fst ((k, v) :: (k2, v2) :: m)) = true).
        now rewrite Hgt.
      * change (blob_ltb k' k2
                && ascending (map fst ((k2, v2) :: map_emplace k v m)) = true).
        now rewrite H12.
      * change (blob_ltb k' k2 && ascending (map fst ((k2, v2) :: m)) = true).
        now rewrite H12.
Qed.

(** ... leaves the other keys alone ... *)
Lemma assoc_find_emplace_ne k0 k v m :
  k0 <> k -> assoc_find k0 (map_emplace k v m) = assoc_find k0 m.
Proof.
  intros Hne. induction m as [|[k' v'] m IH]; simpl.
  - now rewrite bool_decide_eq_false_2 by congruence.
  - destruct (blob_ltb k k'); [|destruct (blob_ltb k' k)]; simpl.
    + now rewrite (bool_decide_eq_false_2 (k = k0)) by congruence.
    + now rewrite IH.
    + reflexivity.
Qed.

(** ... and binds a new key, but never rebinds an existing one. *)
Lemma assoc_find_emplace_eq k v m :
  ascending (map fst m) = true ->
  assoc_find k (map_emplace k v m)
  = Some (match assoc_find k m with Some x => x | None => v end).
Proof.
  induction m as [|[k' v'] m IH]; intros Hasc.
  - simpl. now rewrite bool_decide_eq_true_2.
  - simpl map_emplace. destruct (blob_ltb k k') eqn:Hlt.
    + rewrite (assoc_find_below k k' v' m Hlt Hasc).
      simpl. now rewrite bool_decide_eq_true_2.
    + destruct (blob_ltb k' k) eqn:Hgt.
      * simpl. rewrite bool_decide_eq_false_2 by now apply blob_ltb_neq.
        apply IH. exact (ascending_tail _ _ Hasc).
      * rewrite <- (blob_ltb_connex _ _ Hlt Hgt). simpl.
        now rewrite bool_decide_eq_true_2.
Qed.

Lemma fold_emplace kvs : forall acc,
  ascending (map fst acc) = true ->
  let values :=
    fold_left (fun vs kv => map_emplace (fst kv) (snd kv) vs) kvs acc in
  ascending (map fst values) = true
  /\ forall k, assoc_find k values
               = match assoc_find k acc with
                 | Some x => Some x
                 | None => assoc_find k kvs
                 end.
Proof.
  induction kvs as [|[k v] kvs IH]; intros acc Hasc; simpl.
  - split; [exact Hasc|]. intros k0. now destruct (assoc_find k0 acc).
  - destruct (IH (map_emplace k v acc) (map_emplace_ascending k v acc Hasc))
      as [Hsorted Hfind].
    split; [exact Hsorted|]. intros k0. rewrite Hfind.
    destruct (bool_decide_reflect (k = k0)) as [<-|Hne].
    + rewrite assoc_find_emplace_eq by exact Hasc.
      now destruct (assoc_find k acc).
    + rewrite assoc_find_emplace_ne by congruence. reflexivity.
Qed.

Lemma set_insert_ascending k s :
  ascending s = true -> ascending (set_insert k s) = true.
Proof.
  induction s as [|x s IH]; [reflexivity|]. intros Hasc. simpl set_insert.
  destruct (blob_ltb k x) eqn:Hlt.
  - change (blob_ltb k x && ascending (x :: s) = true). now rewrite Hlt.
  - destruct (blob_ltb x k) eqn:Hgt; [|exact Hasc].
    specialize (IH (ascending_tail _ _ Hasc)).
    destruct s as [|y s]; simpl set_insert in *.
    + simpl. now rewrite Hgt.
    + simpl in Hasc. apply andb_true_iff in Hasc as [Hxy _].
      destruct (blob_ltb k y); [|destruct (blob_ltb y k)].
      * change (blob_ltb x k && ascending (k :: y :: s) = true). now rewrite Hgt.
      * change (blob_ltb x y && ascending (y :: set_insert k s) = true).
        now rewrite Hxy.
      * change (blob_ltb x y && ascending (y :: s) = true). now rewrite Hxy.
Qed.

Lemma elem_of_set_insert x k s : x ∈ set_insert k s <-> x = k \/ x ∈ s.
Proof.
  induction s as [|y s IH]; simpl.
  - rewrite list_elem_of_singleton, elem_of_nil. tauto.
  - destruct (blob_ltb k y) eqn:Hlt; [|destruct (blob_ltb y k) eqn:Hgt].
    + rewrite !elem_of_cons. tauto.
    + rewrite !elem_of_cons, IH. tauto.
    + rewrite <- (blob_ltb_connex _ _ Hlt Hgt), !elem_of_cons. tauto.
Qed.

Lemma fold_set_insert (kvs : list (blob * blob)) : forall acc,
  ascending acc = true ->
  let keys := fold_left (fun ks kv => set_insert (fst kv) ks) kvs acc in
  ascending keys = true
  /\ forall k, k ∈ keys <-> k ∈ acc \/ k ∈ map fst kvs.
Proof.
  induction kvs as [|[k v] kvs IH]; intros acc Hasc; simpl.
  - split; [exact Hasc|]. intros k0. rewrite elem_of_nil. tauto.
  - destruct (IH (set_insert k acc) (set_insert_ascending k acc Hasc))
      as [Hsorted Hin].
    split; [exact Hsorted|]. intros k0.
    rewrite Hin, elem_of_set_insert, elem_of_cons. tauto.
Qed.

(** X15: when the transport delivers the response, the map [multi_get]
    stores has strictly ascending keys and binds exactly the keys of the
    response, each to the value of its first occurrence there (a later
    duplicate of a key is dropped); this holds whatever the storage status
    is. *)
Theorem multi_get_values
    {E : dsn_error_codes} {PE : pegasus_error_codes} {K : key_schema}
    {D : client_defaults} {T : transport} {M : client_members}
    (hash_key : blob) (sort_keys : list blob) (values : list (blob * blob))
    (max_fetch_count max_fetch_size timeout_milliseconds : Z)
    (info : option internal_info) :
  hash_key <> [] -> str_size hash_key < UINT16_MAX ->
  transport_reports T ERR_OK ->
  let r := multi_get hash_key sort_keys values max_fetch_count max_fetch_size
                     timeout_milliseconds info in
  exists c,
    sent r = [c]
    /\ ascending (map fst (output r)) = true
    /\ forall k, assoc_find k (output r)
                 = assoc_find k (mg_kvs (snd (reply_multi_get c))).
Proof.
  intros Hne Hlen Hrep r. subst r.
  destruct (multi_get_outcome hash_key Hne Hlen sort_keys values max_fetch_count
              max_fetch_size timeout_milliseconds info) as [c ->].
  exists c. simpl. destruct (Hrep c) as (_ & _ & -> & _).
  rewrite Z.eqb_refl. split; [reflexivity|].
  exact (fold_emplace (mg_kvs (snd (reply_multi_get c))) [] eq_refl).
Qed.

(** X16: when the transport delivers the response, the set
    [multi_get_sortkeys] stores is strictly ascending and holds exactly the
    keys of the response. *)
Theorem multi_get_sortkeys_keys
    {E : dsn_error_codes} {PE : pegasus_error_codes} {K : key_schema}
    {D : client_defaults} {T : transport} {M : client_members}
    (hash_key : blob) (sort_keys : list blob)
    (max_fetch_count max_fetch_size timeout_milliseconds : Z)
    (info : option internal_info) :
  hash_key <> [] -> str_size hash_key < UINT16_MAX ->
  transport_reports T ERR_OK ->
  let r := multi_get_sortkeys hash_key sort_keys max_fetch_count max_fetch_size
                              timeout_milliseconds info in
  exists c,
    sent r = [c]
    /\ ascending (output r) = true
    /\ forall k, k ∈ output r <-> k ∈ map fst (mg_kvs (snd (reply_multi_get c))).
Proof.
  intros Hne Hlen Hrep r. subst r.
  destruct (multi_get_sortkeys_outcome hash_key Hne Hlen sort_keys
              max_fetch_count max_fetch_size timeout_milliseconds info)
    as [c ->].
  exists c. simpl. destruct (Hrep c) as (_ & _ & -> & _).
  rewrite Z.eqb_refl. split; [reflexivity|].
  destruct (fold_set_insert (mg_kvs (snd (reply_multi_get c))) [] eq_refl)
    as [Hasc Hin].
  split; [exact Hasc|]. intros k. rewrite Hin, elem_of_nil. tauto.
Qed.

(** ** Output parameters after a refused call *)

(** X17: a hash-key of 65535 bytes or more is refused by every operation
    that takes a hash-key (65535 itself included): [set], [multi_set], [del],
    [get], [multi_get], [multi_get_sortkeys], [multi_del], [ttl], [exist],
    [sortkey_count] and [get_scanner].  The bridged operations then still run
    their continuation, so [get], [multi_get], [multi_get_sortkeys] and
    [multi_del] overwrite the caller's output with an empty value, map, set
    and a zero count, and a non-null [info] receives a default envelope;
    [multi_set] is refused for the hash-key before its collection is looked
    at; [ttl], [exist], [sortkey_count] return before writing anything and
    leave the caller's variable and [info] as they were; [get_scanner] hands
    back no scanner, and [async_get_scanner] passes that on to its
    continuation without a call on the wire. *)
Theorem refused_call_outputs
    {E : dsn_error_codes} {PE : pegasus_error_codes} {K : key_schema}
    {D : client_defaults} {T : transport} {M : client_members}
    (hash_key : blob) :
  UINT16_MAX <= str_size hash_key ->
  let envelope (info : option internal_info) :=
    option_map (fun _ => internal_info_default) info in
  (forall sort_key value timeout_milliseconds ttl_seconds info,
     let r := set hash_key sort_key value timeout_milliseconds ttl_seconds info in
     refused PERR_INVALID_HASH_KEY r /\ info_out r = envelope info)
  /\ (forall kvs timeout_milliseconds ttl_seconds info,
     let r := multi_set hash_key kvs timeout_milliseconds ttl_seconds info in
     refused PERR_INVALID_HASH_KEY r /\ info_out r = envelope info)
  /\ (forall sort_key timeout_milliseconds info,
     let r := del hash_key sort_key timeout_milliseconds info in
     refused PERR_INVALID_HASH_KEY r /\ info_out r = envelope info)
  /\ (forall sort_key value timeout_milliseconds info,
     let r := get hash_key sort_key value timeout_milliseconds info in
     refused PERR_INVALID_HASH_KEY r /\ output r = []
     /\ info_out r = envelope info)
  /\ (forall sort_keys values max_fetch_count max_fetch_size
             timeout_milliseconds info,
     let r := multi_get hash_key sort_keys values max_fetch_count
                        max_fetch_size timeout_milliseconds info in
     refused PERR_INVALID_HASH_KEY r /\ output r = []
     /\ info_out r = envelope info)
  /\ (forall sort_keys max_fetch_count max_fetch_size timeout_milliseconds info,
     let r := multi_get_sortkeys hash_key sort_keys max_fetch_count
                                 max_fetch_size timeout_milliseconds info in
     refused PERR_INVALID_HASH_KEY r /\ output r = []
     /\ info_out r = envelope info)
  /\ (forall sort_keys deleted_count timeout_milliseconds info,
     let r := multi_del hash_key sort_keys deleted_count
                        timeout_milliseconds info in
     refused PERR_INVALID_HASH_KEY r /\ output r = 0
     /\ info_out r = envelope info)
  /\ (forall sort_key ttl_seconds timeout_milliseconds info,
     let r := ttl hash_key sort_key ttl_seconds timeout_milliseconds info in
     refused PERR_INVALID_HASH_KEY r /\ output r = ttl_seconds
     /\ info_out r = info)
  /\ (forall sort_key timeout_milliseconds info,
     let r := exist hash_key sort_key timeout_milliseconds info in
     refused PERR_INVALID_HASH_KEY r /\ info_out r = info)
  /\ (forall count timeout_milliseconds info,
     let r := sortkey_count hash_key count timeout_milliseconds info in
     refused PERR_INVALID_HASH_KEY r /\ output r = count /\ info_out r = info)
  /\ (forall start_sort_key stop_sort_key options,
     get_scanner hash_key start_sort_key stop_sort_key options
     = (PERR_INVALID_HASH_KEY, None))
  /\ (forall start_sort_key stop_sort_key options S
             (k : Z -> option pegasus_scanner -> S -> S),
     completes_with
       (async_get_scanner hash_key start_sort_key stop_sort_key options (Some k))
       [] (k PERR_INVALID_HASH_KEY None)).
Proof.
  intros Hlen envelope. subst envelope.
  assert (Hbig : (UINT16_MAX <=? str_size hash_key) = true) by lia.
  unfold set, multi_set, del, get, multi_get, multi_get_sortkeys, multi_del,
    exist, ttl, sortkey_count, async_set, async_multi_set, async_del,
    async_get, async_multi_get, async_multi_get_sortkeys, async_multi_del,
    completes_with, async_get_scanner, get_scanner, refused, wait_return,
    enter, complete, invoke.
  rewrite Hbig.
  conj_split; enter_case; simpl; rewrite ?app_nil_r; try reflexivity;
    destruct (str_size hash_key =? 0); simpl;
    destruct info; conj_split; reflexivity.
Qed.

(** * Evaluation on the sample configuration *)

Section SampleRuns.
Local Existing Instance Sample.dsn.
Local Existing Instance Sample.perr.
Local Existing Instance Sample.defaults.
Local Existing Instance Sample.keys.
Local Existing Instance Sample.members.
Local Existing Instance Sample.net.

Lemma known_storage_status_translation_witness :
storage_client_error init_error ERR_OK 2 = -1000 - 2
/\ -1012 <= storage_client_error init_error ERR_OK 2 <= -1001
/\ (2 <> 7 ->
    storage_client_error init_error ERR_OK 2
    <> storage_client_error init_error ERR_OK 7).
Proof. apply (known_storage_status_translation 2 7); lia. Defined.

(** C2 as stated fails: the storage statuses 13 and 14 are non-zero and
  different, yet both are translated to the same client code, which is not
  -1000 - 13.  ([unknown_status_code] shows the same for every registered
  set of transport codes.) *)
Lemma storage_status_collision :
(13 <> 0 /\ 14 <> 0 /\ 13 <> 14)
/\ storage_client_error init_error ERR_OK 13
   = storage_client_error init_error ERR_OK 14
/\ storage_client_error init_error ERR_OK 13 <> -1000 - 13.
Proof. vm_compute. repeat split; congruence. Qed.

Lemma error_translation_total_witness :
storage_client_error init_error ERR_OK 0 = 0
/\ storage_client_error init_error 777 0 = -1.
Proof.
pose proof (error_translation_total init_error 777 0)
  as (_ & Hok & _ & Hunknown).
split.
- apply Hok. reflexivity.
- apply Hunknown. reflexivity.
Defined.


(** C1 as stated fails for the ttl-class lookups: with an empty hash-key
  [ttl] and [exist] send the ttl request and return [PERR_OK] on a healthy
  transport, not [PERR_INVALID_HASH_KEY]. *)
Lemma empty_hash_key_ttl_sends :
returned (ttl [] (Sample.str "age") None 1000 None) = Some PERR_OK
/\ returned (ttl [] (Sample.str "age") None 1000 None)
   <> Some PERR_INVALID_HASH_KEY
/\ sent (ttl [] (Sample.str "age") None 1000 None)
   = [ {| rpc := RPC_TTL (Byte.x00 :: Byte.x00 :: Sample.str "age");
          timeout := 1000; partition_hash := 0 |} ]
/\ returned (exist [] (Sample.str "age") 1000 None) = Some PERR_OK
/\ sent (exist [] (Sample.str "age") 1000 None) <> [].
Proof. vm_compute. repeat split; congruence. Qed.

Lemma split_scan_partition_witness :
map scanner_hash (output (get_unordered_scanners 4 scan_options_default []))
= [[9; 8; 7]; [6; 5; 4]; [3; 2]; [1; 0]]
/\ Z.of_nat (length (map scanner_hash
               (output (get_unordered_scanners 4 scan_options_default []))))
   = Z.min 4 10.
Proof.
split; [reflexivity|].
apply (split_scan_partition 10 4 scan_options_default []).
- unfold INT_MAX. lia.
- unfold INT_MAX. lia.
- intros c. reflexivity.
Defined.

(** Scenario D: start and stop sort-key equal, both bounds exclusive. *)
Lemma get_scanner_work_list_witness :
let options := {| timeout_ms := 5000; batch_size := 1000;
                  start_inclusive := false; stop_inclusive := false;
                  snapshot := false |} in
get_scanner (Sample.str "user1") (Sample.str "m") (Sample.str "m") options
= (PERR_OK,
   Some (pegasus_scanner_impl [] options
           (Byte.x00 :: Byte.x05 :: Sample.str "user1m")
           (Byte.x00 :: Byte.x05 :: Sample.str "user1m")))
/\ exists v,
     get_scanner (Sample.str "user1") (Sample.str "m") (Sample.str "m") options
     = (PERR_OK,
        Some (pegasus_scanner_impl v
                (scanner_options (Sample.str "m") options)
                (scanner_start (Sample.str "user1") (Sample.str "m"))
                (scanner_stop (Sample.str "user1") (Sample.str "m")))).
Proof.
intros options. split; [reflexivity|].
destruct (get_scanner_work_list (Sample.str "user1") (Sample.str "m")
            (Sample.str "m") options) as (v & Hv & _).
- discriminate.
- vm_compute. reflexivity.
- exists v. exact Hv.
Defined.

Lemma oversized_hash_key_rejected_witness :
65536 <= str_size Sample.long_key
/\ refused PERR_INVALID_HASH_KEY
     (set Sample.long_key (Sample.str "age") (Sample.str "30") 1000 0 None)
/\ get_scanner Sample.long_key [] [] scan_options_default
   = (PERR_INVALID_HASH_KEY, None).
Proof.
assert (Hlen : 65536 <= str_size Sample.long_key).
{ unfold str_size, Sample.long_key. rewrite repeat_length. lia. }
destruct (oversized_hash_key_rejected Sample.long_key Hlen)
  as (Hset & _ & _ & _ & _ & _ & _ & _ & _ & _ & Hscan & _).
split; [exact Hlen|]. split.
- exact (Hset (Sample.str "age") (Sample.str "30") 1000 0 None).
- exact (Hscan [] [] scan_options_default).
Defined.


Lemma invalid_split_count_rejected_witness :
refused PERR_INVALID_SPLIT_COUNT
  (get_unordered_scanners 0 scan_options_default [])
/\ output (get_unordered_scanners (-3) scan_options_default []) = [].
Proof.
split.
- apply (invalid_split_count_rejected 0 scan_options_default). lia.
- apply (invalid_split_count_rejected (-3) scan_options_default). lia.
Defined.


(** Scenario A: a successful [set] returns [PERR_OK] and fills the envelope
  with the sequence number the response carries. *)
Example set_user1_age :
set (Sample.str "user1") (Sample.str "age") (Sample.str "30") 1000 0
    (Some internal_info_default)
= Outcome (Some PERR_OK) tt
    (Some {| app_id := 2; partition_index := 3; decree := 77;
             server := Sample.node |})
    [ {| rpc := RPC_PUT (Byte.x00 :: Byte.x05 :: Sample.str "user1age")
                        (Sample.str "30") 0;
         timeout := 1000;
         partition_hash := Sample.segment_hash (Sample.str "user1") |} ].
Proof. reflexivity. Qed.

(** Scenario B: [multi_get] with an empty hash-key. *)
Example multi_get_empty_hash_key :
multi_get [] [Sample.str "age"] [] 100 1000000 1000 None
= Outcome (Some PERR_INVALID_HASH_KEY) [] None [].
Proof. reflexivity. Qed.



End SampleRuns.

(** * Evaluation of the further properties *)

Section TableRuns.
Local Existing Instance Sample.dsn.
Local Existing Instance Sample.perr.

Lemma transport_failure_translation_witness :
  storage_client_error init_error ERR_TIMEOUT 0 = PERR_TIMEOUT
  /\ storage_client_error init_error ERR_INVALID_STATE 7 = PERR_SERVER_CHANGED.
Proof.
  destruct (@transport_failure_translation Sample.dsn Sample.perr 0 eq_refl) as (H1 & _).
  destruct (@transport_failure_translation Sample.dsn Sample.perr 7 eq_refl) as (_ & _ & H3 & _).
  exact (conj H1 H3).
Defined.

Lemma init_error_entries_witness :
  is_Some (init_error !! (-1005))
  /\ get_client_error init_error 777 = PERR_UNKNOWN.
Proof.
  split.
  - apply (proj1 (init_error_entries (-1005))). right. lia.
  - apply (proj2 (init_error_entries 777)).
    + unfold dsn_codes. simpl. rewrite !not_elem_of_cons.
      repeat split; try discriminate. apply not_elem_of_nil.
    + lia.
Defined.

Lemma storage_status_meets_transport_code_witness :
  -1000 - 5 <> 0
  /\ storage_client_error init_error ERR_OK (-1000 - 5)
     = get_client_error init_error 5
  /\ storage_client_error init_error ERR_OK (-1000) = PERR_OK.
Proof.
  apply (@storage_status_meets_transport_code Sample.dsn Sample.perr 5 eq_refl).
  - unfold dsn_codes. simpl. rewrite !elem_of_cons. right. left. reflexivity.
  - unfold INT_MAX. lia.
Defined.

End TableRuns.

Section HealthyRuns.
Local Existing Instance Sample.dsn.
Local Existing Instance Sample.perr.
Local Existing Instance Sample.defaults.
Local Existing Instance Sample.keys.
Local Existing Instance Sample.members.
Local Existing Instance Sample.net.

Lemma user1_valid :
  Sample.str "user1" <> [] /\ str_size (Sample.str "user1") < UINT16_MAX.
Proof. split; [discriminate | reflexivity]. Qed.

Lemma healthy_reports : transport_reports Sample.net 0 /\ storage_reports Sample.net 0.
Proof. split; intros c; repeat split. Qed.

Lemma empty_collection_rejected_witness :
  refused PERR_INVALID_VALUE (multi_set (Sample.str "user1") [] 1000 0 None).
Proof.
  destruct (empty_collection_rejected (Sample.str "user1")
              (proj1 user1_valid) (proj2 user1_valid)) as (H & _).
  exact (H 1000 0 None).
Defined.

Lemma get_scanner_validation_witness :
  get_scanner [] (Sample.str "a") (Sample.str "z") scan_options_default
  = (PERR_INVALID_HASH_KEY, None).
Proof.
  apply (proj1 (get_scanner_validation [] (Sample.str "a") (Sample.str "z")
                  scan_options_default)).
  left. reflexivity.
Defined.

Lemma success_outcome_witness :
  (exists c,
    sent (get (Sample.str "user1") (Sample.str "age") [] 1000
              (Some internal_info_default)) = [c]
    /\ returned (get (Sample.str "user1") (Sample.str "age") [] 1000
                     (Some internal_info_default)) = Some PERR_OK
    /\ output (get (Sample.str "user1") (Sample.str "age") [] 1000
                   (Some internal_info_default))
       = rr_value (snd (reply_read c))
    /\ info_out (get (Sample.str "user1") (Sample.str "age") [] 1000
                     (Some internal_info_default))
       = option_map
           (fun _ : internal_info =>
              {| app_id := rr_app_id (snd (reply_read c));
                 partition_index := rr_partition_index (snd (reply_read c));
                 decree := decree internal_info_default;
                 server := rr_server (snd (reply_read c)) |})
           (Some internal_info_default))
  /\ (exists c,
    sent (get (Sample.str "user1") (Sample.str "age") [] 1000 None) = [c]
    /\ returned (get (Sample.str "user1") (Sample.str "age") [] 1000 None)
       = Some PERR_OK
    /\ output (get (Sample.str "user1") (Sample.str "age") [] 1000 None)
       = rr_value (snd (reply_read c))
    /\ info_out (get (Sample.str "user1") (Sample.str "age") [] 1000 None)
       = option_map
           (fun _ : internal_info =>
              {| app_id := rr_app_id (snd (reply_read c));
                 partition_index := rr_partition_index (snd (reply_read c));
                 decree := decree internal_info_default;
                 server := rr_server (snd (reply_read c)) |})
           None).
Proof.
  destruct (@success_outcome Sample.dsn Sample.perr Sample.keys Sample.defaults
              Sample.net Sample.members
              (Sample.str "user1")
              (proj1 user1_valid) (proj2 user1_valid) eq_refl eq_refl
              (proj1 healthy_reports) (proj2 healthy_reports))
    as (_ & _ & _ & _ & H & _).
  split.
  - exact (H (Sample.str "age") [] 1000 (Some internal_info_default)).
  - exact (H (Sample.str "age") [] 1000 None).
Defined.

Lemma split_scan_descending_runs_witness :
  concat (map scanner_hash
            (output (get_unordered_scanners 4 scan_options_default [])))
  = countdown (Z.to_nat 10) 10.
Proof.
  apply (split_scan_descending_runs 10 4 scan_options_default []).
  - unfold INT_MAX. lia.
  - unfold INT_MAX. lia.
  - intros c. reflexivity.
Defined.

Lemma unordered_scanner_options_witness :
  exists hash,
    pegasus_scanner_impl_full [9; 8; 7] scan_options_default
    = pegasus_scanner_impl_full hash
        {| timeout_ms := timeout_ms scan_options_default;
           batch_size := batch_size scan_options_default;
           start_inclusive := start_inclusive scan_options_default;
           stop_inclusive := stop_inclusive scan_options_default;
           snapshot := snapshot scan_options_default |}.
Proof.
  apply (unordered_scanner_options 4 scan_options_default []).
  - discriminate.
  - apply (list_elem_of_lookup_2 _ 0%nat). reflexivity.
Defined.

Lemma refused_call_outputs_witness :
  UINT16_MAX <= str_size Sample.long_key
  /\ output (get Sample.long_key [] (Sample.str "old") 1000 None) = []
  /\ refused PERR_INVALID_HASH_KEY (multi_set Sample.long_key [] 1000 0 None)
  /\ get_scanner Sample.long_key [] [] scan_options_default
     = (PERR_INVALID_HASH_KEY, None).
Proof.
  assert (Hlen : UINT16_MAX <= str_size Sample.long_key).
  { unfold str_size, Sample.long_key. rewrite repeat_length.
    unfold UINT16_MAX. lia. }
  destruct (refused_call_outputs Sample.long_key Hlen)
    as (_ & Hmset & _ & Hget & _ & _ & _ & _ & _ & _ & Hscan & _).
  split; [exact Hlen|].
  split; [exact (proj1 (proj2 (Hget [] (Sample.str "old") 1000 None)))|].
  split; [exact (proj1 (Hmset [] 1000 0 None))|].
  exact (Hscan [] [] scan_options_default).
Defined.

End HealthyRuns.

Section FailureRuns.
Local Existing Instance Sample.dsn.
Local Existing Instance Sample.perr.
Local Existing Instance Sample.defaults.
Local Existing Instance Sample.keys.
Local Existing Instance Sample.members.

Lemma transport_failure_outcome_witness :
  let r := @get _ _ _ _ Scenario.timing_out _
             (Sample.str "user1") (Sample.str "age") (Sample.str "old") 1000
             (Some internal_info_default) in
  returned r = Some (get_client_error _server_error_to_client 5)
  /\ output r = []
  /\ info_out r = option_map (fun _ => internal_info_default)
                             (Some internal_info_default).
Proof.
  assert (Hrep : transport_reports Scenario.timing_out 5)
    by (intros c; repeat split).
  assert (Herr : 5 <> ERR_OK) by discriminate.
  destruct (@transport_failure_outcome Sample.dsn Sample.perr Sample.keys
              Sample.defaults Scenario.timing_out Sample.members
              (Sample.str "user1") 5 (proj1 user1_valid) (proj2 user1_valid)
              Herr Hrep) as (_ & _ & _ & H & _).
  exact (H (Sample.str "age") (Sample.str "old") 1000
           (Some internal_info_default)).
Defined.

Lemma storage_failure_outcome_witness :
  let r := @get _ _ _ _ Scenario.not_found _
             (Sample.str "user1") (Sample.str "age") (Sample.str "old") 1000
             None in
  returned r = Some (-1000 - 1) /\ output r = [].
Proof.
  assert (Hrep : transport_reports Scenario.not_found ERR_OK)
    by (intros c; repeat split).
  assert (Hsto : storage_reports Scenario.not_found 1)
    by (intros c; repeat split).
  assert (Hk : 1 <= 1 <= 12) by lia.
  destruct (@storage_failure_outcome Sample.dsn Sample.perr Sample.keys
              Sample.defaults Scenario.not_found Sample.members
              (Sample.str "user1") 1 (proj1 user1_valid) (proj2 user1_valid)
              eq_refl Hrep Hsto Hk) as (_ & _ & _ & H & _).
  exact (H (Sample.str "age") (Sample.str "old") 1000 None).
Defined.

(** A table the metadata service reports with no partition: the query is
    sent, its completion handler divides by zero, and the blocking call does
    not return; the caller's vector is as it was. *)
Example unordered_scan_without_partitions :
  let r := @get_unordered_scanners _ _ _ (Sample.healthy 0) _
             4 scan_options_default [] in
  returned r = None /\ output r = [] /\ length (sent r) = 1%nat.
Proof. split; [reflexivity|]. split; reflexivity. Qed.

Lemma metadata_query_outcome_witness :
  let r := @get_unordered_scanners _ _ _ Scenario.no_such_table _
             4 scan_options_default [] in
  returned r = Some PERR_APP_NOT_EXIST /\ output r = [].
Proof.
  destruct (@metadata_query_outcome Sample.dsn Sample.perr Sample.defaults
              Scenario.no_such_table Sample.members
              4 scan_options_default [] eq_refl) as (_ & H).
  apply H; [reflexivity | discriminate].
Defined.

Lemma multi_get_values_witness :
  exists c,
    sent (@multi_get _ _ _ _ Scenario.listing _
            (Sample.str "user1") [] [] 100 1000 1000 None) = [c]
    /\ ascending (map fst (output (@multi_get _ _ _ _ Scenario.listing _
                     (Sample.str "user1") [] [] 100 1000 1000 None))) = true
    /\ forall k,
         assoc_find k (output (@multi_get _ _ _ _ Scenario.listing _
                         (Sample.str "user1") [] [] 100 1000 1000 None))
         = assoc_find k (mg_kvs (snd (@reply_multi_get Scenario.listing c))).
Proof.
  apply (@multi_get_values Sample.dsn Sample.perr Sample.keys Sample.defaults
           Scenario.listing Sample.members (Sample.str "user1")
           [] [] 100 1000 1000 None (proj1 user1_valid) (proj2 user1_valid)).
  intros c. repeat split.
Defined.

Lemma multi_get_sortkeys_keys_witness :
  exists c,
    sent (@multi_get_sortkeys _ _ _ _ Scenario.listing _
            (Sample.str "user1") [] 100 1000 1000 None) = [c]
    /\ ascending (output (@multi_get_sortkeys _ _ _ _ Scenario.listing _
                    (Sample.str "user1") [] 100 1000 1000 None)) = true
    /\ forall k,
         k ∈ output (@multi_get_sortkeys _ _ _ _ Scenario.listing _
                       (Sample.str "user1") [] 100 1000 1000 None)
         <-> k ∈ map fst (mg_kvs (snd (@reply_multi_get Scenario.listing c))).
Proof.
  apply (@multi_get_sortkeys_keys Sample.dsn Sample.perr Sample.keys
           Sample.defaults Scenario.listing Sample.members
           (Sample.str "user1") [] 100 1000 1000 None
           (proj1 user1_valid) (proj2 user1_valid)).
  intros c. repeat split.
Defined.

(** The response [b=1, a=2, b=3] is stored as [a=2, b=1]. *)
Example multi_get_listing :
  output (@multi_get _ _ _ _ Scenario.listing _
            (Sample.str "user1") [] [] 100 1000 1000 None)
  = [ (Sample.str "a", Sample.str "2"); (Sample.str "b", Sample.str "1") ].
Proof. reflexivity. Qed.

End FailureRuns.
